(** * k8sctl: the OIDC trust layer

    A shallow embedding of the authentication code of nikogura/k8sctl:

    - package [oidc] (server side): [LoadConfigFromEnv], [NewValidator],
      [ValidateToken] with its four claim gates, [getKeyFunc] and the Gin
      [Middleware];
    - package [cmd] (client and server commands): [getOIDCToken],
      [exchangeJWTForOIDC] and the start of [serverCmd]'s [Run].

    Go values are modelled as the code has them: strings are byte strings,
    [map[string]interface{}] is a finite map to a type of dynamic values,
    a function returning [(x, err)] returns a pair whose second component
    is [None] for a nil error.  The clock ([time.Now().Unix()]), the process
    environment and the outcome of network calls are explicit inputs. *)

From Stdlib Require Import ZArith QArith_base Lia Ascii String.
From stdpp Require Import gmap strings list.

Set Warnings "-register-all".

Local Open Scope string_scope.
Local Open Scope Z_scope.

(** ** Go runtime values *)

Module Go.

(** The dynamic type of an [interface{}] value, as far as the program
    inspects it.  [encoding/json] decodes into [VNil], [VBool], [VFloat64],
    [VString], [VSlice] ([[]interface{}]) and [VMap]; [VStrings] is the Go
    type [[]string], which a caller can store in a claims map by hand. *)
Inductive value : Type :=
| VNil
| VBool (b : bool)
| VFloat64 (f : Q)
| VString (s : string)
| VSlice (l : list value)
| VMap (m : list (string * value))
| VStrings (l : list string).

(** [x.(string)] on the result of a map index: a missing key yields the
    nil interface, for which the assertion fails. *)
Definition assert_string (x : option value) : string * bool :=
  match x with
  | Some (VString s) => (s, true)
  | _ => ("", false)
  end.

(** [x.(float64)].  A finite float64 is a rational number. *)
Definition assert_float64 (x : option value) : Q * bool :=
  match x with
  | Some (VFloat64 f) => (f, true)
  | _ => (Qmake 0 1, false)
  end.

Definition MinInt64 : Z := -9223372036854775808.
Definition MaxInt64 : Z := 9223372036854775807.

(** The integral part of a number: the fraction is discarded. *)
Definition truncate (f : Q) : Z := Z.quot (Qnum f) (Z.pos (Qden f)).

(** [int64(f)]: the integral part of [f] when that is an int64.  For every
    other value the language leaves the result to the implementation (on
    amd64 it is [MinInt64]); [out_of_range] is what the implementation at
    hand gives. *)
Definition float64_to_int64 (out_of_range : Q -> Z) (f : Q) : Z :=
  let t := truncate f in
  if (MinInt64 <=? t) && (t <=? MaxInt64) then t else out_of_range f.

(** The loop [for _, a := range l { s, ok := a.(string); if ok { out =
    append(out, s) } }] over an [[]interface{}]. *)
Fixpoint append_strings (l : list value) : list string :=
  match l with
  | [] => []
  | VString s :: rest => s :: append_strings rest
  | _ :: rest => append_strings rest
  end.

(** *** Errors

    [errors.New] builds an [errorString]; [fmt.Errorf] with one [%w] builds
    a [wrapError] holding the formatted message and the wrapped error, with
    several a [wrapErrors]. *)
Inductive error : Type :=
| errorString (s : string)
| wrapError (msg : string) (err : error)
| wrapErrors (msg : string) (errs : list error).

Definition Error (e : error) : string :=
  match e with
  | errorString s => s
  | wrapError msg _ => msg
  | wrapErrors msg _ => msg
  end.

Definition errors_New (text : string) : error := errorString text.

(** [errors.Is(err, target)]: [target] is [err] or one of the errors it
    wraps.  Errors are values here, so that two errors of the same text are
    the same error. *)
Inductive Is : error -> error -> Prop :=
| Is_same (err : error) : Is err err
| Is_wrapped (msg : string) (err target : error) :
    Is err target -> Is (wrapError msg err) target
| Is_joined (msg : string) (errs : list error) (err target : error) :
    err ∈ errs -> Is err target -> Is (wrapErrors msg errs) target.

(** [fmt.Errorf(prefix + "%w", err)]. *)
Definition Errorf_w (prefix : string) (err : error) : error :=
  wrapError (prefix +:+ Error err) err.

(** [%v] applied to a [[]string]: the elements between brackets, separated
    by one space. *)
Definition fmt_strings (l : list string) : string :=
  "[" +:+ String.concat " " l +:+ "]".

(** *** Package [strings] *)

Definition HasSuffix (s suffix : string) : bool :=
  (String.length suffix <=? String.length s)%nat &&
  String.eqb
    (String.substring (String.length s - String.length suffix) (String.length suffix) s)
    suffix.

Definition TrimSuffix (s suffix : string) : string :=
  if HasSuffix s suffix
  then String.substring 0 (String.length s - String.length suffix) s
  else s.

(** [strings.Split(s, sep)] for a one-byte separator. *)
Fixpoint Split (s : string) (sep : ascii) : list string :=
  match s with
  | EmptyString => [EmptyString]
  | String c rest =>
      if Ascii.eqb c sep then EmptyString :: Split rest sep
      else match Split rest sep with
           | hd :: tl => String c hd :: tl
           | [] => [String c EmptyString]
           end
  end.

(** The first occurrence of a one-byte separator: the text before it and
    the text after it. *)
Fixpoint cut (s : string) (sep : ascii) : option (string * string) :=
  match s with
  | EmptyString => None
  | String c rest =>
      if Ascii.eqb c sep then Some (EmptyString, rest)
      else match cut rest sep with
           | Some (before, after) => Some (String c before, after)
           | None => None
           end
  end.

(** [strings.SplitN(s, sep, n)] for a one-byte separator and [n >= 0]: at
    most [n] substrings, the last one being the unsplit remainder; [n = 0]
    gives no substring at all. *)
Fixpoint SplitN (s : string) (sep : ascii) (n : nat) : list string :=
  match n with
  | O => []
  | S O => [s]
  | S n' =>
      match cut s sep with
      | Some (before, after) => before :: SplitN after sep n'
      | None => [s]
      end
  end.

Definition lower_byte (c : ascii) : ascii :=
  let n := Ascii.nat_of_ascii c in
  if ((65 <=? n) && (n <=? 90))%nat then Ascii.ascii_of_nat (n + 32) else c.

(** [strings.ToLower] on its ASCII path: the bytes ['A'..'Z'] are mapped to
    ['a'..'z'] and every other byte is kept.  On input with a byte above
    127 Go maps [unicode.ToLower] over the runes instead; no rune outside
    ASCII is mapped to one of [b], [e], [a], [r], so the comparison of the
    result with ["bearer"], the only use the program makes of it, has the
    same outcome in both. *)
Fixpoint ToLower (s : string) : string :=
  match s with
  | EmptyString => EmptyString
  | String c rest => String (lower_byte c) (ToLower rest)
  end.

(** [os.Getenv]: the value of the variable, empty when it is not set. *)
Definition Getenv (env : gmap string string) (key : string) : string :=
  default "" (env !! key).

End Go.

Import Go.

(** ** Package [oidc]: configuration, validator and middleware *)

Module Oidc.

Record Config : Type := {
  IssuerURL : string;
  Audience : string;
  AllowedGroups : list string;
}.

(** The signing methods registered by golang-jwt, by their Go type; the
    argument is the name returned by [Alg()].  [SigningMethodRSA] is
    RS256/RS384/RS512, [SigningMethodRSAPSS] PS256/PS384/PS512,
    [SigningMethodECDSA] ES256/ES384/ES512, [SigningMethodHMAC]
    HS256/HS384/HS512. *)
Inductive SigningMethod : Type :=
| SigningMethodRSA (alg : string)
| SigningMethodRSAPSS (alg : string)
| SigningMethodECDSA (alg : string)
| SigningMethodEd25519
| SigningMethodHMAC (alg : string)
| signingMethodNone.

(** [jwt.Claims] is an interface; [jwt.Parse] fills in a [MapClaims]. *)
Inductive Claims : Type :=
| MapClaims (m : gmap string value)
| OtherClaims.

(** [token.Claims.(jwt.MapClaims)]. *)
Definition assert_MapClaims (c : Claims) : gmap string value * bool :=
  match c with
  | MapClaims m => (m, true)
  | OtherClaims => (∅, false)
  end.

Record Token : Type := {
  Method : SigningMethod;
  Header : gmap string value;
  TokenClaims : Claims;
  Valid : bool;
}.

(** A zap log record: level, message and the fields given to it. *)
Inductive Level : Type := DebugLevel | WarnLevel | ErrorLevel.

Record Entry : Type := {
  level : Level;
  message : string;
  fields : list (string * string);
}.

(** A JWK of the key set; [jwk.Key()] returns its public key as [any], nil
    when it has none. *)
Record JWK (K : Type) : Type := { Key : option K }.
Arguments Key {K} _.

(** What the package takes from libraries outside the repository, as an
    interface:
    - [CryptoKey]: the type of public keys;
    - [TrimSpace]: [strings.TrimSpace];
    - [fmt_v]: the [%v] verb of [fmt] on a dynamic value;
    - [NewStorageFromHTTP]: [jwkset.NewStorageFromHTTP(url, options)], the
      key set obtained by the first fetch, or the error of that fetch;
    - [ErrKeyNotFound]: the error of [KeyRead] for an identifier that is
      not in the store;
    - [ParseUnverified], [Verify], [Validate]: the steps of golang-jwt's
      parser, see [jwt_Parse];
    - [NewProduction]: the error of [zap.NewProduction()], if any;
    - [int64_overflow]: the result of [int64(f)] for a float64 whose
      integral part is not an int64, which the language leaves to the
      implementation. *)
Class Library : Type := {
  CryptoKey : Type;
  TrimSpace : string -> string;
  fmt_v : value -> string;
  NewStorageFromHTTP : string -> gmap string (JWK CryptoKey) * option error;
  ErrKeyNotFound : string -> error;
  ParseUnverified : string -> Token * option error;
  Verify : SigningMethod -> string -> option CryptoKey -> option error;
  Validate : Claims -> Z -> option error;
  NewProduction : option error;
  int64_overflow : Q -> Z;
}.

Section Validator.

Context `{L : Library}.

(** *** [LoadConfigFromEnv] *)

Fixpoint range_groups (groups allowed : list string) : list string :=
  match groups with
  | [] => allowed
  | group :: rest =>
      let trimmed := TrimSpace group in
      if negb (String.eqb trimmed "")
      then range_groups rest (allowed ++ [trimmed])
      else range_groups rest allowed
  end.

Definition LoadConfigFromEnv (env : gmap string string) : Config :=
  let allowedGroupsStr := Getenv env "OIDC_ALLOWED_GROUPS" in
  {| IssuerURL := Getenv env "OIDC_ISSUER_URL";
     Audience := Getenv env "OIDC_AUDIENCE";
     AllowedGroups :=
       if negb (String.eqb allowedGroupsStr "")
       then range_groups (Split allowedGroupsStr ",") []
       else [] |}.

(** *** The validator

    [jwks] is the current content of the [jwkset.Storage] the validator
    holds: the key set as a map from key identifier to JWK.  The logger is
    a sink; what is written to it is returned as a list of entries. *)
Record Validator : Type := {
  config : Config;
  jwks : gmap string (JWK CryptoKey);
}.

(** [jwkset.NewMemoryStorage()]: a store without keys. *)
Definition NewMemoryStorage : gmap string (JWK CryptoKey) := ∅.

Definition KeyRead (store : gmap string (JWK CryptoKey)) (kid : string)
  : JWK CryptoKey * option error :=
  match store !! kid with
  | Some jwk => (jwk, None)
  | None => ({| Key := None |}, Some (ErrKeyNotFound kid))
  end.

Definition NewValidator (config : Config) : Validator * list Entry :=
  let jwksURL := TrimSuffix (IssuerURL config) "/" +:+ "/.well-known/jwks.json" in
  let '(storage, err) := NewStorageFromHTTP jwksURL in
  match err with
  | Some e =>
      ({| config := config; jwks := NewMemoryStorage |},
       [ {| level := ErrorLevel; message := "failed to create JWKS storage";
            fields := [("error", Error e); ("url", jwksURL)] |} ])
  | None => ({| config := config; jwks := storage |}, [])
  end.

(** *** The claim gates *)

Definition verifyIssuer (v : Validator) (mapClaims : gmap string value)
  : option error :=
  let '(issuer, ok) := assert_string (mapClaims !! "iss") in
  if negb ok || negb (String.eqb issuer (IssuerURL (config v)))
  then Some (errors_New ("invalid issuer: expected " +:+ IssuerURL (config v)
                         +:+ ", got " +:+ issuer))
  else None.

Definition extractAudiences (v : Validator) (mapClaims : gmap string value)
  : list string * option error :=
  match mapClaims !! "aud" with
  | Some (VString aud) => ([aud], None)
  | Some (VSlice aud) => (append_strings aud, None)
  | _ => ([], Some (errors_New "invalid audience claim type"))
  end.

(** [for _, aud := range audiences { if aud == expected { valid = true;
    break } }]. *)
Fixpoint range_audiences (audiences : list string) (expected : string) : bool :=
  match audiences with
  | [] => false
  | aud :: rest =>
      if String.eqb aud expected then true else range_audiences rest expected
  end.

Definition verifyAudience (v : Validator) (mapClaims : gmap string value)
  : option error :=
  let '(audiences, err) := extractAudiences v mapClaims in
  match err with
  | Some e => Some e
  | None =>
      let validAudience := range_audiences audiences (Audience (config v)) in
      if negb validAudience
      then Some (errors_New ("invalid audience: expected " +:+ Audience (config v)
                             +:+ ", got " +:+ fmt_strings audiences))
      else None
  end.

(** [int64(exp)] on the implementation at hand. *)
Definition int64_of_float64 (f : Q) : Z := float64_to_int64 int64_overflow f.

Definition verifyExpiration (v : Validator) (mapClaims : gmap string value)
    (now : Z) : option error :=
  let '(exp, ok) := assert_float64 (mapClaims !! "exp") in
  if negb ok then Some (errors_New "missing or invalid exp claim")
  else if now >? int64_of_float64 exp then Some (errors_New "token expired")
  else None.

Definition extractUserGroups (v : Validator) (mapClaims : gmap string value)
  : list string * option error :=
  match mapClaims !! "groups" with
  | None => ([], Some (errors_New "token missing groups claim"))
  | Some (VSlice groups) => (append_strings groups, None)
  | Some (VStrings groups) => (groups, None)
  | Some _ => ([], Some (errors_New "invalid groups claim type"))
  end.

Fixpoint range_allowedGroups (userGroup : string) (allowed : list string) : bool :=
  match allowed with
  | [] => false
  | allowedGroup :: rest =>
      if String.eqb userGroup allowedGroup then true
      else range_allowedGroups userGroup rest
  end.

Fixpoint range_userGroups (userGroups allowed : list string) : bool :=
  match userGroups with
  | [] => false
  | userGroup :: rest =>
      if range_allowedGroups userGroup allowed then true
      else range_userGroups rest allowed
  end.

Definition verifyGroupMembership (v : Validator) (mapClaims : gmap string value)
  : option error :=
  if (length (AllowedGroups (config v)) =? 0)%nat then None
  else
    let '(userGroups, err) := extractUserGroups v mapClaims in
    match err with
    | Some e => Some e
    | None =>
        let hasValidGroup := range_userGroups userGroups (AllowedGroups (config v)) in
        if negb hasValidGroup
        then Some (errors_New ("user not in allowed groups. User groups: "
                               +:+ fmt_strings userGroups +:+ ", allowed: "
                               +:+ fmt_strings (AllowedGroups (config v))))
        else None
    end.

(** *** Key resolution *)

Definition getKeyFunc (v : Validator) (token : Token)
  : option CryptoKey * option error :=
  match Method token with
  | SigningMethodRSA _ =>
      let '(kid, kidOK) := assert_string (Header token !! "kid") in
      if negb kidOK then (None, Some (errors_New "token missing kid header"))
      else
        let '(jwk, err) := KeyRead (jwks v) kid in
        match err with
        | Some e =>
            (None, Some (Errorf_w ("failed to find key " +:+ kid +:+ " in JWKS: ") e))
        | None =>
            match Key jwk with
            | None =>
                (None, Some (errors_New ("key " +:+ kid +:+ " has no public key")))
            | Some publicKey => (Some publicKey, None)
            end
        end
  | _ =>
      (None, Some (errors_New ("unexpected signing method: "
                               +:+ fmt_v (default VNil (Header token !! "alg")))))
  end.

(** *** [jwt.Parse] of golang-jwt v5

    The library is not part of the repository; its [Parser.ParseWithClaims]
    runs these steps in this order, and the model keeps the order and leaves
    the steps themselves open:
    - [ParseUnverified] splits the token string and decodes header and
      claims;
    - the key function is called on the decoded token;
    - [Verify] decodes the signature segment and checks it with the
      token's signing method under the key returned;
    - [Validate] is the library's check of the registered time claims;
    - only then is [Valid] set.
    The errors are built by the library's [newError]. *)
Definition ErrTokenUnverifiable : error := errors_New "token is unverifiable".
Definition ErrTokenSignatureInvalid : error := errors_New "token signature is invalid".
Definition ErrTokenInvalidClaims : error := errors_New "token has invalid claims".
Definition ErrTokenExpired : error := errors_New "token is expired".
Definition ErrInvalidType : error := errors_New "invalid type for claim".

(** The library's [newError(message, err, more...)]:
    [fmt.Errorf("%w: %s: %w ...", err, message, more...)], without the
    message part when [message] is empty. *)
Definition newError (message : string) (err : error) (more : list error) : error :=
  wrapErrors
    (Error err
     +:+ (if String.eqb message "" then "" else ": " +:+ message)
     +:+ String.concat "" (map (fun e => ": " +:+ Error e) more))
    (err :: more).

Definition set_Valid (token : Token) : Token :=
  {| Method := Method token; Header := Header token;
     TokenClaims := TokenClaims token; Valid := true |}.

Definition jwt_Parse (tokenString : string)
    (keyFunc : Token -> option CryptoKey * option error) (now : Z)
  : Token * option error :=
  let '(token, err) := ParseUnverified tokenString in
  match err with
  | Some e => (token, Some e)
  | None =>
      let '(key, err) := keyFunc token in
      match err with
      | Some e =>
          (token, Some (newError "error while executing keyfunc"
                                 ErrTokenUnverifiable [e]))
      | None =>
          match Verify (Method token) tokenString key with
          | Some e => (token, Some (newError "" ErrTokenSignatureInvalid [e]))
          | None =>
              match Validate (TokenClaims token) now with
              | Some e => (token, Some (newError "" ErrTokenInvalidClaims [e]))
              | None => (set_Valid token, None)
              end
          end
      end
  end.

(** *** [ValidateToken]

    The result [claims] is the named result of the Go function: it is nil
    on every path but the last. [now] is [time.Now().Unix()]. *)
Definition ValidateToken (v : Validator) (tokenString : string) (now : Z)
  : option (gmap string value) * option error :=
  let '(token, err) := jwt_Parse tokenString (getKeyFunc v) now in
  match err with
  | Some e => (None, Some (Errorf_w "failed to parse token: " e))
  | None =>
      let '(mapClaims, claimsOK) := assert_MapClaims (TokenClaims token) in
      if negb claimsOK || negb (Valid token)
      then (None, Some (errors_New "invalid token claims"))
      else
        match verifyIssuer v mapClaims with
        | Some e => (None, Some e)
        | None =>
        match verifyAudience v mapClaims with
        | Some e => (None, Some e)
        | None =>
        match verifyExpiration v mapClaims now with
        | Some e => (None, Some e)
        | None =>
        match verifyGroupMembership v mapClaims with
        | Some e => (None, Some e)
        | None => (Some mapClaims, None)
        end end end end
  end.

(** *** The Gin middleware

    The part of [gin.Context] the handler reads and writes.  [response] is
    the status code and the JSON object written by [AbortWithStatusJSON]
    ([gin.H] is a [map[string]any]); [Keys] is the store behind [ctx.Set]. *)
Record Request : Type := {
  (* the first value of each header, under its canonical name *)
  RequestHeader : gmap string string;
  ClientIP : string;
  URLPath : string;
}.

Inductive stored : Type :=
| StoredClaims (claims : gmap string value)
| StoredString (s : string).

Record Context : Type := {
  CtxRequest : Request;
  Keys : gmap string stored;
  aborted : bool;
  response : option (Z * gmap string value);
}.

(** What the handler does besides updating the context, in order: the call
    of the validator, the log records, the call of [ctx.Next]. *)
Inductive event : Type :=
| CallValidateToken (tokenString : string)
| Logged (e : Entry)
| CallNext.

Definition StatusUnauthorized : Z := 401.

Definition GetHeader (ctx : Context) (key : string) : string :=
  default "" (RequestHeader (CtxRequest ctx) !! key).

Definition AbortWithStatusJSON (ctx : Context) (code : Z)
    (obj : gmap string value) : Context :=
  {| CtxRequest := CtxRequest ctx; Keys := Keys ctx;
     aborted := true; response := Some (code, obj) |}.

Definition CtxSet (ctx : Context) (key : string) (x : stored) : Context :=
  {| CtxRequest := CtxRequest ctx; Keys := <[key := x]> (Keys ctx);
     aborted := aborted ctx; response := response ctx |}.

Definition GetString (ctx : Context) (key : string) : string :=
  match Keys ctx !! key with
  | Some (StoredString s) => s
  | _ => ""
  end.

(** [if x, ok := claims[key].(string); ok { ctx.Set(name, x) }]. *)
Definition set_if_string (ctx : Context) (claims : gmap string value)
    (key name : string) : Context :=
  let '(x, ok) := assert_string (claims !! key) in
  if ok then CtxSet ctx name (StoredString x) else ctx.

(** The handler returned by [Middleware(validator)], run on one request at
    clock reading [now]. *)
Definition Middleware (validator : Validator) (now : Z) (ctx : Context)
  : Context * list event :=
  let authHeader := GetHeader ctx "Authorization" in
  if String.eqb authHeader "" then
    (AbortWithStatusJSON ctx StatusUnauthorized
       {[ "error" := VString "missing authorization header" ]}, [])
  else
    let parts := SplitN authHeader " " 2 in
    if negb (length parts =? 2)%nat
       || negb (String.eqb (ToLower (default "" (parts !! 0%nat))) "bearer")
    then
      (AbortWithStatusJSON ctx StatusUnauthorized
         {[ "error" := VString "invalid authorization header format" ]}, [])
    else
      let tokenString := default "" (parts !! 1%nat) in
      let '(claims, err) := ValidateToken validator tokenString now in
      match err with
      | Some e =>
          (AbortWithStatusJSON ctx StatusUnauthorized
             {[ "error" := VString ("invalid token: " +:+ Error e) ]},
           [ CallValidateToken tokenString;
             Logged {| level := WarnLevel; message := "token validation failed";
                       fields := [("error", Error e);
                                  ("remote_addr", ClientIP (CtxRequest ctx))] |} ])
      | None =>
          let claims := default ∅ claims in
          let ctx := CtxSet ctx "oidc_claims" (StoredClaims claims) in
          let ctx := set_if_string ctx claims "email" "user_email" in
          let ctx := set_if_string ctx claims "sub" "user_id" in
          (ctx,
           [ CallValidateToken tokenString;
             Logged {| level := DebugLevel; message := "request authenticated";
                       fields := [("user_email", GetString ctx "user_email");
                                  ("user_id", GetString ctx "user_id");
                                  ("path", URLPath (CtxRequest ctx))] |};
             CallNext ])
      end.

End Validator.

End Oidc.

(** ** Package [config]: the cluster configuration file *)

Module Config.

Record ClusterConfig : Type := {
  Environment : string;
  ServerURL : string;
}.

Record Config : Type := {
  Clusters : gmap string ClusterConfig;
  DefaultEnvironment : string;
}.

Definition GetClusterEnvironment (c : Config) (clusterName : string) : string :=
  match Clusters c !! clusterName with
  | Some clusterCfg => Environment clusterCfg
  | None =>
      if negb (String.eqb (DefaultEnvironment c) "") then DefaultEnvironment c
      else clusterName
  end.

Definition GetClusterServerURL (c : Config) (clusterName : string) : string :=
  match Clusters c !! clusterName with
  | Some clusterCfg => ServerURL clusterCfg
  | None => ""
  end.

(** What reading the configuration file takes from outside the
    repository:
    - [ReadFile]: [os.ReadFile];
    - [Stat]: the error of [os.Stat], if any;
    - [yaml_Unmarshal]: [yaml.Unmarshal] of the data into a fresh
      [&Config{}]: the structure as it is left, and the error, if any;
    - [Join]: [filepath.Join]. *)
Class FileSystem : Type := {
  ReadFile : string -> string * option error;
  Stat : string -> option error;
  yaml_Unmarshal : string -> Config * option error;
  Join : list string -> string;
}.

Section Files.

Context `{F : FileSystem}.

(** [Load].  The result [cfg] is a pointer: nil ([None]) when the file
    cannot be read. *)
Definition Load (path : string) : option Config * option error :=
  let '(data, err) := ReadFile path in
  match err with
  | Some e =>
      (None, Some (Errorf_w ("failed to read config file " +:+ path +:+ ": ") e))
  | None =>
      let '(cfg, err) := yaml_Unmarshal data in
      match err with
      | Some e =>
          (Some cfg,
           Some (Errorf_w ("failed to parse config file " +:+ path +:+ ": ") e))
      | None => (Some cfg, None)
      end
  end.

(** [for _, loc := range locations { if _, statErr := os.Stat(loc);
    statErr == nil { return Load(loc) } }]; [None] when the loop ends
    without a return. *)
Fixpoint range_locations (locations : list string)
  : option (option Config * option error) :=
  match locations with
  | [] => None
  | loc :: rest =>
      match Stat loc with
      | None => Some (Load loc)
      | Some _ => range_locations rest
      end
  end.

Definition LoadDefault (env : gmap string string) : option Config * option error :=
  let configPath := Getenv env "K8SCTL_CONFIG" in
  if negb (String.eqb configPath "") then Load configPath
  else
    let locations :=
      [ "./k8sctl.yaml";
        Join [Getenv env "HOME"; ".config"; "k8sctl"; "config.yaml"];
        "/etc/k8sctl/config.yaml" ] in
    match range_locations locations with
    | Some found => found
    | None => (Some {| Clusters := ∅; DefaultEnvironment := "dev" |}, None)
    end.

End Files.

End Config.

(** ** Package [cmd]: the client's token exchange and the server command *)

Module Cmd.

Import Oidc.

(** The persistent flags of the root command that authentication reads. *)
Record Flags : Type := {
  username : string;
  cluster : string;
  dexURL : string;
  clientID : string;
  clientSecret : string;
}.

(** [kubectl.Config] of kubectl-ssh-oidc: the fields the program sets or
    reads. *)
Record KubectlConfig : Type := {
  DexURL : string;
  ClientID : string;
  ClientSecret : string;
  DexInstanceID : string;
  TargetAudience : string;
  Username : string;
  SSHKeyPaths : list string;
}.

(** [kubectl.DexTokenResponse]: the two token fields of the response. *)
Record DexTokenResponse : Type := {
  IDToken : string;
  AccessToken : string;
}.

Record HTTPRequest : Type := {
  ReqMethod : string;
  ReqURL : string;
  ReqBody : string;
  ReqHeader : gmap string string;
}.

(** An [http.Response]: the status code and the outcome of reading the
    body to its end with [io.ReadAll]. *)
Record HTTPResponse : Type := {
  StatusCode : Z;
  Body : string * option error;
}.

(** What the client takes from outside the repository:
    - [LoadConfig]: [kubectl.LoadConfig()], which reads the environment;
    - [CreateSSHSignedJWT]: [kubectl.CreateSSHSignedJWT];
    - [LoadDefault]: [config.LoadDefault()], which reads the configuration
      file from the file system;
    - [Encode]: [url.Values.Encode];
    - [NewRequestWithContext]: the error of [http.NewRequestWithContext]
      for a method and a URL, if any;
    - [Do]: [http.Client.Do] with the 30 second timeout;
    - [Unmarshal]: [json.Unmarshal] into a [DexTokenResponse];
    - [Itoa]: the [%d] verb of [fmt]. *)
Class Client : Type := {
  LoadConfig : gmap string string -> KubectlConfig;
  CreateSSHSignedJWT : KubectlConfig -> string * option error;
  LoadDefault : gmap string string -> Config.Config * option error;
  Encode : gmap string (list string) -> string;
  NewRequestWithContext : string -> string -> option error;
  Do : HTTPRequest -> HTTPResponse * option error;
  Unmarshal : string -> DexTokenResponse * option error;
  Itoa : Z -> string;
}.

Section Client.

Context `{C : Client}.

Definition getConfigValue (env : gmap string string) (flagValue envVar : string)
  : string :=
  if negb (String.eqb flagValue "") then flagValue else Getenv env envVar.

(** [loadConfig]: the cached configuration when there is one, else the one
    read by [LoadDefault].  The update of the cache is not tracked. *)
Definition loadConfig (env : gmap string string)
    (cachedConfig : option Config.Config) : Config.Config * option error :=
  match cachedConfig with
  | Some cfg => (cfg, None)
  | None => LoadDefault env
  end.

Definition getClusterSuffix (env : gmap string string)
    (cachedConfig : option Config.Config) (clusterName : string) : string :=
  let envSuffix := Getenv env "K8SCTL_CLUSTER_SUFFIX" in
  if negb (String.eqb envSuffix "") then envSuffix
  else
    let '(cfg, err) := loadConfig env cachedConfig in
    match err with
    | None => Config.GetClusterEnvironment cfg clusterName
    | Some _ => clusterName
    end.

Definition StatusOK : Z := 200.

(** [exchangeJWTForOIDC].  A nil [tokenResp] is [None]. *)
Definition exchangeJWTForOIDC (config : KubectlConfig) (sshJWT : string)
  : option DexTokenResponse * option error :=
  let baseURL := TrimSuffix (DexURL config) "/" in
  let tokenURL := baseURL +:+ "/token" in
  let formData : gmap string (list string) :=
    <[ "client_id" := [ClientID config] ]>
    (<[ "connector_id" := ["ssh"] ]>
    (<[ "scope" := ["openid email groups profile"] ]>
    (<[ "requested_token_type" := ["urn:ietf:params:oauth:token-type:id_token"] ]>
    (<[ "subject_token" := [sshJWT] ]>
    (<[ "subject_token_type" := ["urn:ietf:params:oauth:token-type:access_token"] ]>
    (<[ "grant_type" := ["urn:ietf:params:oauth:grant-type:token-exchange"] ]> ∅)))))) in
  let formData :=
    if negb (String.eqb (TargetAudience config) "")
    then <[ "audience" := [TargetAudience config] ]> formData else formData in
  let formData :=
    if negb (String.eqb (ClientSecret config) "")
    then <[ "client_secret" := [ClientSecret config] ]> formData else formData in
  match NewRequestWithContext "POST" tokenURL with
  | Some e => (None, Some (Errorf_w "failed to create token request: " e))
  | None =>
      let req :=
        {| ReqMethod := "POST"; ReqURL := tokenURL; ReqBody := Encode formData;
           ReqHeader :=
             <[ "Accept" := "application/json" ]>
             (<[ "Content-Type" := "application/x-www-form-urlencoded" ]> ∅) |} in
      let '(resp, err) := Do req in
      match err with
      | Some e => (None, Some (Errorf_w "failed to exchange with Dex: " e))
      | None =>
          let '(respBody, err) := Body resp in
          match err with
          | Some e => (None, Some (Errorf_w "failed to read token response: " e))
          | None =>
              if negb (StatusCode resp =? StatusOK)
              then (None, Some (errors_New ("SSH authentication failed ("
                                            +:+ Itoa (StatusCode resp) +:+ "): "
                                            +:+ respBody)))
              else
                let '(token, unmarshalErr) := Unmarshal respBody in
                match unmarshalErr with
                | Some e =>
                    (None, Some (Errorf_w "failed to parse token response: " e))
                | None => (Some token, None)
                end
          end
      end
  end.

(** The first part of [getOIDCToken]: the configuration handed to the
    signer and to the exchange. *)
Definition oidcClientConfig (flags : Flags) (env : gmap string string)
    (cachedConfig : option Config.Config) : KubectlConfig :=
  let config := LoadConfig env in
  let usernameValue := getConfigValue env (username flags) "KUBECTL_SSH_USER" in
  let clientIDValue := getConfigValue env (clientID flags) "K8SCTL_CLIENT_ID" in
  let clientSecretValue :=
    getConfigValue env (clientSecret flags) "K8SCTL_CLIENT_SECRET" in
  let dexURLValue := getConfigValue env (dexURL flags) "DEX_URL" in
  let envAudience := Getenv env "K8SCTL_AUDIENCE" in
  {| Username :=
       if negb (String.eqb usernameValue "") then usernameValue
       else Username config;
     ClientID :=
       if negb (String.eqb clientIDValue "") then clientIDValue
       else "dc49b1cda0ee88b545e1f71c7460bf";
     ClientSecret :=
       if negb (String.eqb clientSecretValue "") then clientSecretValue
       else "ecab4d07b4c83e779d9484acdc80e6";
     DexURL :=
       if negb (String.eqb dexURLValue "") then dexURLValue else DexURL config;
     DexInstanceID :=
       if negb (String.eqb dexURLValue "") then dexURLValue
       else DexInstanceID config;
     TargetAudience :=
       if negb (String.eqb envAudience "") then envAudience
       else if negb (String.eqb (cluster flags) "")
       then "https://k8sctl-"
            +:+ getClusterSuffix env cachedConfig (cluster flags)
            +:+ ".example.com"
       else "https://k8sctl-dev.example.com";
     SSHKeyPaths := [] |}.

(** [getOIDCToken].  The writes to standard error under [DEBUG=true] are
    left out.  [tokenResp] is dereferenced only after the error check, and
    [exchangeJWTForOIDC] returns nil only with an error. *)
Definition getOIDCToken (flags : Flags) (env : gmap string string)
    (cachedConfig : option Config.Config) : string * option error :=
  let config := oidcClientConfig flags env cachedConfig in
  let '(sshJWT, err) := CreateSSHSignedJWT config in
  match err with
  | Some e => ("", Some (Errorf_w "failed to create SSH-signed JWT: " e))
  | None =>
      let '(tokenResp, err) := exchangeJWTForOIDC config sshJWT in
      match err with
      | Some e => ("", Some (Errorf_w "failed to exchange JWT with Dex: " e))
      | None =>
          let tokenResp :=
            default {| IDToken := ""; AccessToken := "" |} tokenResp in
          let token := IDToken tokenResp in
          let token := if String.eqb token "" then AccessToken tokenResp else token in
          if String.eqb token ""
          then (token, Some (errors_New "no token received from Dex"))
          else (token, None)
      end
  end.

End Client.

(** *** Requests to the server *)

(** The root command's flags that the commands read besides [Flags]. *)
Record Options : Type := {
  verbose : bool;
  showToken : bool;
  apiVersion : string;
  timeoutSeconds : Z;
}.

(** [http.Client.Do] of a client built with the given timeout, in
    seconds. *)
Class Sender : Type := {
  DoWithTimeout : Z -> HTTPRequest -> HTTPResponse * option error;
}.

(** How a command ends: [log.Fatalf] writes its message and exits with
    status 1; otherwise [Run] returns and the process exits with status 0.
    [stdout] is what was printed before, one entry for each [fmt.Printf]. *)
Inductive exit : Type :=
| Exit1 (stdout : list string) (fatal : string)
| Exit0 (stdout : list string).

Definition LF : string := String (Ascii.ascii_of_nat 10) EmptyString.

Section Requests.

Context `{C : Client} `{S : Sender}.

Definition getServerBaseURL (env : gmap string string)
    (cachedConfig : option Config.Config) (clusterName : string) : string :=
  let envURL := Getenv env "K8SCTL_SERVER_URL" in
  if negb (String.eqb envURL "") then TrimSuffix envURL "/"
  else
    let constructed :=
      "https://k8sctl-" +:+ getClusterSuffix env cachedConfig clusterName
      +:+ ".example.com" in
    let '(cfg, err) := loadConfig env cachedConfig in
    match err with
    | None =>
        let clusterURL := Config.GetClusterServerURL cfg clusterName in
        if negb (String.eqb clusterURL "") then TrimSuffix clusterURL "/"
        else constructed
    | Some _ => constructed
    end.

(** The request [makeAuthenticatedRequest] builds and sends.  An empty
    [body] is sent as no body. *)
Definition authenticatedRequest (method urlStr body token : string) : HTTPRequest :=
  {| ReqMethod := method; ReqURL := urlStr; ReqBody := body;
     ReqHeader :=
       <[ "Content-Type" := "application/json" ]>
       (<[ "Authorization" := "Bearer " +:+ token ]> ∅) |}.

Definition makeAuthenticatedRequest (timeoutSeconds : Z)
    (method urlStr body token : string) : option HTTPResponse * option error :=
  match NewRequestWithContext method urlStr with
  | Some e => (None, Some (Errorf_w "failed to create request: " e))
  | None =>
      let '(resp, err) :=
        DoWithTimeout timeoutSeconds (authenticatedRequest method urlStr body token) in
      (Some resp, err)
  end.

(** [authCheckCmd]'s [Run].  [resp] is read only after the error check,
    and [makeAuthenticatedRequest] returns nil only with an error. *)
Definition authCheckCmd_Run (flags : Flags) (opts : Options)
    (env : gmap string string) (cachedConfig : option Config.Config) : exit :=
  let '(token, err) := getOIDCToken flags env cachedConfig in
  match err with
  | Some e => Exit1 [] ("Failed to get OIDC token: " +:+ Error e)
  | None =>
      let out :=
        if showToken opts
        then ["OIDC Token:" +:+ LF +:+ LF +:+ token +:+ LF +:+ LF] else [] in
      let baseURL := getServerBaseURL env cachedConfig (cluster flags) in
      let serverURL := baseURL +:+ "/" +:+ apiVersion opts +:+ "/auth-check" in
      let out :=
        if verbose opts
        then (out ++ ["Target URL: " +:+ serverURL +:+ LF;
                      "Cluster: " +:+ cluster flags +:+ LF])%list
        else out in
      let '(resp, err) :=
        makeAuthenticatedRequest (timeoutSeconds opts) "POST" serverURL "" token in
      match err with
      | Some e =>
          Exit1 out ("failed making authenticated request: " +:+ Error e)
      | None =>
          let resp := default {| StatusCode := 0; Body := ("", None) |} resp in
          let '(body, err) := Body resp in
          match err with
          | Some e => Exit1 out ("failed reading response body: " +:+ Error e)
          | None =>
              if StatusCode resp =? StatusOK
              then Exit0 (out ++ ["✓ Authentication successful: "
                                  +:+ body +:+ LF])%list
              else Exit1 out ("✗ Authentication failed with status "
                              +:+ Itoa (StatusCode resp) +:+ ": " +:+ body)
          end
      end
  end.

End Requests.

(** *** The server command

    [serverCmd]'s [Run] up to the construction of the validator that
    [Middleware] is given for the [/v1] routes.  [log.Fatalf] ends the
    process with its message.  [viper.GetString] after
    [viper.AutomaticEnv()] reads the environment variable of that name. *)
Section Server.

Context `{L : Library}.

Inductive started : Type :=
| Fatal (msg : string)
| Started (oidcValidator : Validator) (logged : list Entry).

Definition serverCmd_Run (env : gmap string string) : started :=
  let oidcConfig := LoadConfigFromEnv env in
  if String.eqb (IssuerURL oidcConfig) ""
  then Fatal "OIDC_ISSUER_URL environment variable is required"
  else if String.eqb (Audience oidcConfig) ""
  then Fatal "OIDC_AUDIENCE environment variable is required"
  else
    let oidcConfig :=
      if (length (AllowedGroups oidcConfig) =? 0)%nat
      then {| IssuerURL := IssuerURL oidcConfig;
              Audience := Audience oidcConfig;
              AllowedGroups := ["engineering"] |}
      else oidcConfig in
    let cfAPIToken := Getenv env "CLOUDFLARE_API_TOKEN" in
    let cfZoneID := Getenv env "CLOUDFLARE_ZONE_ID" in
    if String.eqb cfAPIToken ""
    then Fatal "CLOUDFLARE_API_TOKEN environment variable is required"
    else if String.eqb cfZoneID ""
    then Fatal "CLOUDFLARE_ZONE_ID environment variable is required"
    else
      match NewProduction with
      | Some e => Fatal ("failed to create logger: " +:+ Error e)
      | None =>
          let '(oidcValidator, logged) := NewValidator oidcConfig in
          Started oidcValidator logged
      end.

End Server.

End Cmd.

(** ** Package [k8sctl]: handlers behind the middleware *)

Module K8sctl.

Import Oidc.

Definition stripDomainSuffix (name : string) : string :=
  default "" (Split name "." !! 0%nat).

(** [ctx.JSON(code, obj)]: writes the status and the object. *)
Definition JSON (ctx : Context) (code : Z) (obj : gmap string value) : Context :=
  {| CtxRequest := CtxRequest ctx; Keys := Keys ctx;
     aborted := aborted ctx; response := Some (code, obj) |}.

Definition AuthCheckHandler (ctx : Context) : Context :=
  JSON ctx 200
    (<[ "status" := VString "authenticated" ]>
     (<[ "message" := VString "Authentication successful" ]> ∅)).

(** The route [POST /v1/auth-check] as [serverCmd] registers it: the
    group's middleware, then [AuthCheckHandler].  Gin runs the handlers of
    a route in order on a request that is not aborted; a handler that
    calls [Next] runs the pending ones before it returns, and [Abort]
    keeps the pending ones from running. *)
Definition v1_auth_check `{L : Library} (validator : Validator) (now : Z)
    (ctx : Context) : Context * list event :=
  let '(ctx, events) := Middleware validator now ctx in
  if aborted ctx then (ctx, events) else (AuthCheckHandler ctx, events).

End K8sctl.

(** ** The claims' vocabulary

    The notions the specification uses and the code does not name. *)

Module Spec.

Import Oidc.

(** An audience claim of a bearer token, as decoded from its JSON, and the
    audience values it stands for: a single string, or a list of strings. *)
Inductive audience_claim : value -> list string -> Prop :=
| audience_single (aud : string) : audience_claim (VString aud) [aud]
| audience_list (auds : list string) :
    audience_claim (VSlice (VString <$> auds)) auds.

(** A groups claim that is a list of strings: the decoded JSON array, or
    the Go slice of strings. *)
Inductive groups_claim : value -> list string -> Prop :=
| groups_decoded (groups : list string) :
    groups_claim (VSlice (VString <$> groups)) groups
| groups_strings (groups : list string) :
    groups_claim (VStrings groups) groups.

(** A signing method is asymmetric when it verifies with a public key:
    the HMAC family and the unsecured method are not. *)
Definition asymmetric (m : SigningMethod) : bool :=
  match m with
  | SigningMethodHMAC _ | signingMethodNone => false
  | _ => true
  end.

(** The two-part form [Bearer <token>] of an Authorization header: a
    scheme that reads [bearer] in any letter case, one space, the token. *)
Definition bearer_form (header : string) : Prop :=
  exists scheme token,
    header = scheme +:+ " " +:+ token /\ ToLower scheme = "bearer".

(** The expiration claim [exp] fails at clock reading [now] with error
    [err]: it is absent or not a number, or it is a number whose whole
    seconds lie before [now]. *)
Inductive expiration_failure `{L : Library} : option value -> Z -> error -> Prop :=
| expiration_missing (exp : option value) (now : Z) :
    (forall f, exp <> Some (VFloat64 f)) ->
    expiration_failure exp now (errors_New "missing or invalid exp claim")
| expiration_past (f : Q) (now : Z) :
    int64_of_float64 f < now ->
    expiration_failure (Some (VFloat64 f)) now (errors_New "token expired").

(** The token string was decoded to a token with the claims [mapClaims],
    its key was resolved by the validator's key function and its
    signature verified: the steps of jwt.Parse before the check of the
    registered claims. *)
Definition verified `{L : Library} (v : Validator) (tokenString : string)
    (mapClaims : gmap string value) : Prop :=
  exists token key,
    ParseUnverified tokenString = (token, None) /\
    getKeyFunc v token = (key, None) /\
    Verify (Method token) tokenString key = None /\
    TokenClaims token = MapClaims mapClaims.

(** What golang-jwt's check of the registered claims does with the
    expiration claim of a [MapClaims]: a value that is not a number is an
    error that wraps [ErrInvalidType]; a number other than 0 that is not
    after the clock is an error that wraps [ErrTokenExpired]; an absent
    claim and the number 0 are let through. *)
Definition expiration_checked_by_parser `{L : Library} : Prop :=
  forall (mapClaims : gmap string value) (now : Z),
    match mapClaims !! "exp" with
    | None => True
    | Some (VFloat64 f) =>
        Qnum f <> 0 -> Qnum f <= now * Z.pos (Qden f) ->
        exists e, Validate (MapClaims mapClaims) now = Some e /\ Is e ErrTokenExpired
    | Some _ =>
        exists e, Validate (MapClaims mapClaims) now = Some e /\ Is e ErrInvalidType
    end.

(** The token string passed jwt.Parse under the validator's key function
    and carries the claims [mapClaims]. *)
Definition parsed `{L : Library} (v : Validator) (tokenString : string) (now : Z)
    (mapClaims : gmap string value) : Prop :=
  exists token,
    jwt_Parse tokenString (getKeyFunc v) now = (token, None) /\
    TokenClaims token = MapClaims mapClaims.

End Spec.

(** ** A concrete instance

    A small stand-in for the libraries, on which the definitions above can
    be run: token strings are names in a table of decoded tokens, a
    signature is good under the one key of the provider, and the registered
    claims check rejects an expiration that has passed, as golang-jwt's
    does. *)

Module Example.

Import Oidc Cmd.

Definition is_space (c : ascii) : bool :=
  let n := Ascii.nat_of_ascii c in
  ((n =? 32) || ((9 <=? n) && (n <=? 13)))%nat.

Fixpoint trim_left (s : string) : string :=
  match s with
  | EmptyString => EmptyString
  | String c rest => if is_space c then trim_left rest else s
  end.

Fixpoint trim_right (s : string) : string :=
  match s with
  | EmptyString => EmptyString
  | String c rest =>
      match trim_right rest with
      | EmptyString => if is_space c then EmptyString else String c EmptyString
      | rest' => String c rest'
      end
  end.

Definition issuer : string := "https://dex.example.com".
Definition audience : string := "https://svc.example.com".
Definition other : string := "https://other.example.com".

Definition cfg : Config :=
  {| IssuerURL := issuer; Audience := audience; AllowedGroups := ["engineering"] |}.

Definition claims_good : gmap string value :=
  <[ "iss" := VString issuer ]>
  (<[ "aud" := VSlice [VString other; VString audience] ]>
  (<[ "exp" := VFloat64 (Qmake 1600 1) ]>
  (<[ "groups" := VSlice [VString "engineering"; VString "sre"] ]>
  (<[ "sub" := VString "alice" ]> ∅)))).

(** Issuer and audience fit, there is no expiration claim. *)
Definition claims_no_exp : gmap string value :=
  <[ "iss" := VString issuer ]>
  (<[ "aud" := VString audience ]>
  (<[ "groups" := VSlice [VString "engineering"] ]> ∅)).

(** A foreign issuer and no expiration claim. *)
Definition claims_foreign_no_exp : gmap string value :=
  <[ "iss" := VString "https://evil.example.com" ]> claims_no_exp.

Definition rs256 (claims : gmap string value) : Token :=
  {| Method := SigningMethodRSA "RS256";
     Header := <[ "alg" := VString "RS256" ]> (<[ "kid" := VString "k1" ]> ∅);
     TokenClaims := MapClaims claims; Valid := false |}.

Definition hs256 (claims : gmap string value) : Token :=
  {| Method := SigningMethodHMAC "HS256";
     Header := <[ "alg" := VString "HS256" ]> (<[ "kid" := VString "k1" ]> ∅);
     TokenClaims := MapClaims claims; Valid := false |}.

Definition tokens : gmap string Token :=
  <[ "good" := rs256 claims_good ]>
  (<[ "no-exp" := rs256 claims_no_exp ]>
  (<[ "foreign-no-exp" := rs256 claims_foreign_no_exp ]>
  (<[ "hmac" := hs256 claims_good ]> ∅))).

Definition key_set : gmap string (JWK string) :=
  {[ "k1" := {| Key := Some "provider-key-1" |} ]}.

Definition exp_check (c : Claims) (now : Z) : option error :=
  match c with
  | MapClaims m =>
      match m !! "exp" with
      | None => None
      | Some (VFloat64 f) =>
          if (Qnum f =? 0) || (now * Z.pos (Qden f) <? Qnum f) then None
          else Some (errors_New "token is expired")
      | Some _ => Some (errors_New "invalid type for claim: exp is invalid")
      end
  | OtherClaims => None
  end.

(** The provider answers at [fetch_ok] and nowhere else. *)
Definition library (fetch_ok : string) : Library :=
  {| CryptoKey := string;
     TrimSpace := fun s => trim_right (trim_left s);
     fmt_v := fun x => match x with VString s => s | _ => "<nil>" end;
     NewStorageFromHTTP := fun url =>
       if String.eqb url fetch_ok then (key_set, None)
       else (∅, Some (errors_New "failed to perform first HTTP request for JWK Set"));
     ErrKeyNotFound := fun kid => errors_New ("key not found: kid " +:+ kid);
     ParseUnverified := fun tokenString =>
       match tokens !! tokenString with
       | Some token => (token, None)
       | None => (rs256 ∅, Some (errors_New "token is malformed"))
       end;
     Verify := fun _ _ key =>
       match key with
       | Some "provider-key-1" => None
       | _ => Some (errors_New "crypto/rsa: verification error")
       end;
     Validate := exp_check;
     NewProduction := None;
     int64_overflow := fun _ => MinInt64 |}.

Definition up : Library := library "https://dex.example.com/.well-known/jwks.json".
Definition down : Library := library "".

Definition validator : @Validator up :=
  @Build_Validator up cfg (key_set : gmap string (JWK (@CryptoKey up))).

Definition request (authorization : option string) : Context :=
  {| CtxRequest :=
       {| RequestHeader :=
            match authorization with
            | Some h => {[ "Authorization" := h ]}
            | None => ∅
            end;
          ClientIP := "10.0.0.7"; URLPath := "/v1/auth-check" |};
     Keys := ∅; aborted := false; response := None |}.

Definition server_env : gmap string string :=
  <[ "OIDC_ISSUER_URL" := issuer ]>
  (<[ "OIDC_AUDIENCE" := audience ]>
  (<[ "OIDC_ALLOWED_GROUPS" := " , " ]>
  (<[ "CLOUDFLARE_API_TOKEN" := "cf-token" ]>
  (<[ "CLOUDFLARE_ZONE_ID" := "cf-zone" ]> ∅)))).

(** The identity provider answers every exchange with [resp]. *)
Definition client (resp : DexTokenResponse) : Client :=
  {| LoadConfig := fun env =>
       {| DexURL := Getenv env "DEX_URL"; ClientID := ""; ClientSecret := "";
          DexInstanceID := Getenv env "DEX_URL"; TargetAudience := "";
          Username := Getenv env "USER"; SSHKeyPaths := [] |};
     CreateSSHSignedJWT := fun config => ("ssh-jwt-for-" +:+ Username config, None);
     LoadDefault := fun _ => ({| Config.Clusters := ∅;
                                 Config.DefaultEnvironment := "dev" |}, None);
     Encode := fun _ => "";
     NewRequestWithContext := fun _ _ => None;
     Do := fun _ => ({| StatusCode := 200; Body := ("{}", None) |}, None);
     Unmarshal := fun _ => (resp, None);
     Itoa := fun _ => "200" |}.

Definition flags : Flags :=
  {| username := "alice"; cluster := "cluster1"; dexURL := issuer;
     clientID := ""; clientSecret := "" |}.

(** A file system with the one file [path], holding [cfg]. *)
Definition one_file (path : string) (cfg : Config.Config) : Config.FileSystem :=
  {| Config.ReadFile := fun p =>
       if String.eqb p path then ("clusters: ...", None)
       else ("", Some (errors_New ("open " +:+ p +:+ ": no such file or directory")));
     Config.Stat := fun p =>
       if String.eqb p path then None
       else Some (errors_New ("stat " +:+ p +:+ ": no such file or directory"));
     Config.yaml_Unmarshal := fun _ => (cfg, None);
     Config.Join := fun parts => String.concat "/" parts |}.

Definition staging : Config.Config :=
  {| Config.Clusters :=
       {[ "staging-us" :=
            {| Config.Environment := "staging";
               Config.ServerURL := "https://k8sctl-staging.example.com/" |} ]};
     Config.DefaultEnvironment := "dev" |}.

(** The server answers every request with [status] and [body]. *)
Definition sender (status : Z) (body : string) : Sender :=
  {| DoWithTimeout := fun _ _ =>
       ({| StatusCode := status; Body := (body, None) |}, None) |}.

Definition options : Options :=
  {| verbose := false; showToken := false; apiVersion := "v1";
     timeoutSeconds := 300 |}.

(** The identity provider answers every exchange with [status] and
    [body]; the configuration file is read from the file system [fs]. *)
Definition provider (fs : Config.FileSystem) (status : Z) (body : string) : Client :=
  {| LoadConfig := fun env =>
       {| DexURL := Getenv env "DEX_URL"; ClientID := ""; ClientSecret := "";
          DexInstanceID := Getenv env "DEX_URL"; TargetAudience := "";
          Username := Getenv env "USER"; SSHKeyPaths := [] |};
     CreateSSHSignedJWT := fun config => ("ssh-jwt-for-" +:+ Username config, None);
     LoadDefault := fun env =>
       (default {| Config.Clusters := ∅; Config.DefaultEnvironment := "" |}
                (fst (Config.LoadDefault (F := fs) env)),
        snd (Config.LoadDefault (F := fs) env));
     Encode := fun _ => "";
     NewRequestWithContext := fun _ _ => None;
     Do := fun _ => ({| StatusCode := status; Body := (body, None) |}, None);
     Unmarshal := fun _ => ({| IDToken := "id-token"; AccessToken := "" |}, None);
     Itoa := fun n =>
       if n =? 400 then "400" else if n =? 401 then "401" else "200" |}.

(** No configuration file anywhere. *)
Definition no_file : Config.FileSystem :=
  {| Config.ReadFile := fun p =>
       ("", Some (errors_New ("open " +:+ p +:+ ": no such file or directory")));
     Config.Stat := fun p =>
       Some (errors_New ("stat " +:+ p +:+ ": no such file or directory"));
     Config.yaml_Unmarshal := fun _ => (staging, None);
     Config.Join := fun parts => String.concat "/" parts |}.

(** The check of the registered claims as golang-jwt does it for the
    expiration claim; the errors of one check are joined. *)
Definition validate_registered (c : Claims) (now : Z) : option error :=
  match c with
  | MapClaims m =>
      match m !! "exp" with
      | None => None
      | Some (VFloat64 f) =>
          if (Qnum f =? 0) || (now * Z.pos (Qden f) <? Qnum f) then None
          else Some (wrapErrors (Error ErrTokenExpired) [ErrTokenExpired])
      | Some _ =>
          let e := newError "exp is invalid" ErrInvalidType [] in
          Some (wrapErrors (Error e) [e])
      end
  | OtherClaims => None
  end.

(** A foreign issuer and the expiration 0, the first second of 1970. *)
Definition claims_foreign_zero_exp : gmap string value :=
  <[ "exp" := VFloat64 (Qmake 0 1) ]> claims_foreign_no_exp.

(** A foreign issuer and an expiration that passed at 900. *)
Definition claims_foreign_expired : gmap string value :=
  <[ "exp" := VFloat64 (Qmake 900 1) ]> claims_foreign_no_exp.

(** The library [up] with [validate_registered] for the registered claims
    and two more token strings. *)
Definition up_exp : Library :=
  {| CryptoKey := string;
     TrimSpace := TrimSpace (Library := up);
     fmt_v := fmt_v (Library := up);
     NewStorageFromHTTP := NewStorageFromHTTP (Library := up);
     ErrKeyNotFound := ErrKeyNotFound (Library := up);
     ParseUnverified := fun tokenString =>
       if String.eqb tokenString "foreign-zero-exp"
       then (rs256 claims_foreign_zero_exp, None)
       else if String.eqb tokenString "foreign-expired"
       then (rs256 claims_foreign_expired, None)
       else ParseUnverified (Library := up) tokenString;
     Verify := Verify (Library := up);
     Validate := validate_registered;
     NewProduction := None;
     int64_overflow := fun _ => MinInt64 |}.

Definition validator_exp : @Validator up_exp :=
  @Build_Validator up_exp cfg (key_set : gmap string (JWK (@CryptoKey up_exp))).

(** An RS256 token whose header names no key. *)
Definition rs256_no_kid (claims : gmap string value) : Token :=
  {| Method := SigningMethodRSA "RS256";
     Header := <[ "alg" := VString "RS256" ]> ∅;
     TokenClaims := MapClaims claims; Valid := false |}.

(** The library [up] with the one more token string "no-kid". *)
Definition up_no_kid : Library :=
  {| CryptoKey := string;
     TrimSpace := TrimSpace (Library := up);
     fmt_v := fmt_v (Library := up);
     NewStorageFromHTTP := NewStorageFromHTTP (Library := up);
     ErrKeyNotFound := ErrKeyNotFound (Library := up);
     ParseUnverified := fun tokenString =>
       if String.eqb tokenString "no-kid" then (rs256_no_kid claims_good, None)
       else ParseUnverified (Library := up) tokenString;
     Verify := Verify (Library := up);
     Validate := Validate (Library := up);
     NewProduction := None;
     int64_overflow := fun _ => MinInt64 |}.

(** The claims of [claims_good] with the one group given as a string. *)
Definition claims_group_string : gmap string value :=
  <[ "groups" := VString "engineering" ]> claims_good.

End Example.

Import Oidc Cmd Spec.

(** * Properties *)

Section ValidatorProperties.

Context `{L : Library}.

Implicit Types (v : Validator) (mapClaims : gmap string value).

(** ** The loops *)

Lemma append_strings_fmap (l : list string) :
  append_strings (VString <$> l) = l.
Proof. induction l as [|s l IH]; csimpl; [done | by rewrite IH]. Qed.

Lemma range_audiences_elem_of (audiences : list string) (expected : string) :
  range_audiences audiences expected = true <-> expected ∈ audiences.
Proof.
  induction audiences as [|aud rest IH]; simpl.
  - split; [discriminate | intros Hin; inversion Hin].
  - destruct (String.eqb_spec aud expected) as [->|Hne].
    + split; [intros _; left | done].
    + rewrite IH. split; [by right |].
      intros Hin. apply elem_of_cons in Hin as [->|Hin]; [done | exact Hin].
Qed.

Lemma range_allowedGroups_elem_of (userGroup : string) (allowed : list string) :
  range_allowedGroups userGroup allowed = true <-> userGroup ∈ allowed.
Proof.
  induction allowed as [|g rest IH]; simpl.
  - split; [discriminate | intros Hin; inversion Hin].
  - destruct (String.eqb_spec userGroup g) as [->|Hne].
    + split; [intros _; left | done].
    + rewrite IH. split; [by right |].
      intros Hin. apply elem_of_cons in Hin as [->|Hin]; [done | exact Hin].
Qed.

Lemma range_userGroups_shared (userGroups allowed : list string) :
  range_userGroups userGroups allowed = true <->
  exists g, g ∈ userGroups /\ g ∈ allowed.
Proof.
  induction userGroups as [|u rest IH]; simpl.
  - split; [discriminate | intros (g & Hin & _); inversion Hin].
  - destruct (range_allowedGroups u allowed) eqn:Hu.
    + apply range_allowedGroups_elem_of in Hu.
      split; [intros _; exists u; split; [left | done] | done].
    + rewrite IH. split.
      * intros (g & Hin & Hall). exists g. split; [by right | done].
      * intros (g & Hin & Hall).
        apply elem_of_cons in Hin as [->|Hin].
        -- apply range_allowedGroups_elem_of in Hall. congruence.
        -- by exists g.
Qed.

(** ** The parser and the order of the gates *)

Lemma jwt_Parse_ok (tokenString : string)
    (keyFunc : Token -> option CryptoKey * option error) (now : Z) (token : Token) :
  jwt_Parse tokenString keyFunc now = (token, None) ->
  exists unverified key,
    ParseUnverified tokenString = (unverified, None) /\
    keyFunc unverified = (key, None) /\
    Verify (Method unverified) tokenString key = None /\
    Validate (TokenClaims unverified) now = None /\
    token = set_Valid unverified.
Proof.
  unfold jwt_Parse. intros Hp.
  destruct (ParseUnverified tokenString) as [unverified [e|]]; [discriminate |].
  destruct (keyFunc unverified) as [key [e|]] eqn:Hk; [discriminate |].
  destruct (Verify (Method unverified) tokenString key) as [e|] eqn:Hv;
    [discriminate |].
  destruct (Validate (TokenClaims unverified) now) as [e|] eqn:Hc;
    [discriminate |].
  exists unverified, key. injection Hp as <-. auto.
Qed.

(** A token that has passed the parser goes through the four gates in the
    order issuer, audience, expiration, groups; the first that fails
    decides the error. *)
Lemma ValidateToken_parsed v (tokenString : string) (now : Z) mapClaims :
  parsed v tokenString now mapClaims ->
  ValidateToken v tokenString now =
    match verifyIssuer v mapClaims with
    | Some e => (None, Some e)
    | None =>
    match verifyAudience v mapClaims with
    | Some e => (None, Some e)
    | None =>
    match verifyExpiration v mapClaims now with
    | Some e => (None, Some e)
    | None =>
    match verifyGroupMembership v mapClaims with
    | Some e => (None, Some e)
    | None => (Some mapClaims, None)
    end end end end.
Proof.
  intros (token & Hp & Hc). unfold ValidateToken. rewrite Hp.
  apply jwt_Parse_ok in Hp as (unverified & key & _ & _ & _ & _ & ->).
  simpl in *. rewrite Hc. reflexivity.
Qed.

(** An error of the parser is wrapped and returned without claims. *)
Lemma ValidateToken_parse_error v (tokenString : string) (now : Z)
    (token : Token) (e : error) :
  jwt_Parse tokenString (getKeyFunc v) now = (token, Some e) ->
  ValidateToken v tokenString now =
    (None, Some (Errorf_w "failed to parse token: " e)).
Proof. intros Hp. unfold ValidateToken. by rewrite Hp. Qed.

(** ** The audience gate *)

Lemma extractAudiences_claim v mapClaims (aud : value) (values : list string) :
  mapClaims !! "aud" = Some aud -> audience_claim aud values ->
  extractAudiences v mapClaims = (values, None).
Proof.
  intros Hl Hc. unfold extractAudiences. rewrite Hl.
  destruct Hc; [done | by rewrite append_strings_fmap].
Qed.

(** C1. For a token whose audience claim is a single string or a list of
    strings, the audience check succeeds exactly when the configured
    audience is one of the values; otherwise it fails with the error
    "invalid audience: expected ..., got [...]"; ValidateToken then
    returns an error and no claims, and that error is the one of the
    audience check once the issuer check, which comes first, has passed. *)
Theorem C1_audience_membership v mapClaims (aud : value) (values : list string) :
  mapClaims !! "aud" = Some aud ->
  audience_claim aud values ->
  let mismatch :=
    errors_New ("invalid audience: expected " +:+ Audience (config v)
                +:+ ", got " +:+ fmt_strings values) in
  (verifyAudience v mapClaims = None <-> Audience (config v) ∈ values) /\
  (Audience (config v) ∉ values -> verifyAudience v mapClaims = Some mismatch) /\
  (forall tokenString now,
      parsed v tokenString now mapClaims ->
      Audience (config v) ∉ values ->
      (exists e, ValidateToken v tokenString now = (None, Some e)) /\
      (verifyIssuer v mapClaims = None ->
       ValidateToken v tokenString now = (None, Some mismatch))).
Proof.
  intros Hl Hc mismatch.
  assert (Hv : verifyAudience v mapClaims =
               if range_audiences values (Audience (config v)) then None
               else Some mismatch).
  { unfold verifyAudience. rewrite (extractAudiences_claim _ _ _ _ Hl Hc).
    by destruct (range_audiences values (Audience (config v))). }
  assert (Hno : Audience (config v) ∉ values ->
                verifyAudience v mapClaims = Some mismatch).
  { intros Hnot. rewrite Hv.
    destruct (range_audiences values (Audience (config v))) eqn:Hr; [|done].
    by apply range_audiences_elem_of in Hr. }
  split; [|split].
  - rewrite Hv, <- range_audiences_elem_of.
    by destruct (range_audiences values (Audience (config v))).
  - exact Hno.
  - intros tokenString now Hp Hnot.
    rewrite (ValidateToken_parsed _ _ _ _ Hp), (Hno Hnot). split.
    + destruct (verifyIssuer v mapClaims); by eexists.
    + by intros ->.
Qed.

(** ** The expiration gate *)

Lemma verifyExpiration_failure v mapClaims (now : Z) (err : error) :
  expiration_failure (mapClaims !! "exp") now err ->
  verifyExpiration v mapClaims now = Some err.
Proof.
  unfold verifyExpiration. intros Hf.
  remember (mapClaims !! "exp") as x eqn:Hx.
  destruct Hf as [x now Hno|f now Hlt]; simpl.
  - destruct x as [[]|]; simpl; try done. by destruct (Hno f).
  - destruct (Z.gtb_spec now (int64_of_float64 f)); [done | lia].
Qed.

(** No leeway: a numeric expiration passes exactly when its whole seconds
    are not before the clock reading. *)
Lemma verifyExpiration_numeric v mapClaims (now : Z) (f : Q) :
  mapClaims !! "exp" = Some (VFloat64 f) ->
  verifyExpiration v mapClaims now = None <-> now <= int64_of_float64 f.
Proof.
  intros Hx. unfold verifyExpiration. rewrite Hx. simpl.
  destruct (Z.gtb_spec now (int64_of_float64 f)); split; (done || lia).
Qed.

Lemma int64_of_float64_in_range (f : Q) :
  MinInt64 <= truncate f <= MaxInt64 -> int64_of_float64 f = truncate f.
Proof.
  intros [Hlo Hhi]. unfold int64_of_float64, float64_to_int64. cbv zeta.
  destruct (Z.leb_spec MinInt64 (truncate f)); [|lia].
  by destruct (Z.leb_spec (truncate f) MaxInt64); [|lia].
Qed.

(** A non-negative expiration within the int64 range that is smaller, as
    a rational number, than the clock reading has its whole seconds
    before it. *)
Lemma int64_of_float64_past (f : Q) (now : Z) :
  0 <= Qnum f -> Qnum f < (MaxInt64 + 1) * Z.pos (Qden f) ->
  Qnum f < now * Z.pos (Qden f) -> int64_of_float64 f < now.
Proof.
  intros Hnn Hr Hlt.
  assert (Ht : truncate f = Qnum f / Z.pos (Qden f)).
  { unfold truncate. by rewrite Z.quot_div_nonneg by lia. }
  assert (H0 : 0 <= truncate f) by (rewrite Ht; apply Z.div_pos; lia).
  assert (H1 : truncate f < MaxInt64 + 1)
    by (rewrite Ht; apply Z.div_lt_upper_bound; lia).
  rewrite int64_of_float64_in_range by (unfold MinInt64, MaxInt64 in *; lia).
  rewrite Ht. apply Z.div_lt_upper_bound; lia.
Qed.

(** The outcome of the parser on a verified token is decided by the check
    of the registered claims. *)
Lemma jwt_Parse_verified v (tokenString : string) (now : Z) mapClaims :
  verified v tokenString mapClaims ->
  match Validate (MapClaims mapClaims) now with
  | Some e =>
      exists token,
        jwt_Parse tokenString (getKeyFunc v) now =
          (token, Some (newError "" ErrTokenInvalidClaims [e]))
  | None => parsed v tokenString now mapClaims
  end.
Proof.
  intros (token & key & Hu & Hk & Hs & Hc).
  destruct (Validate (MapClaims mapClaims) now) as [e|] eqn:Hv.
  - exists token. unfold jwt_Parse. by rewrite Hu, Hk, Hs, Hc, Hv.
  - exists (set_Valid token). split; [|exact Hc].
    unfold jwt_Parse. by rewrite Hu, Hk, Hs, Hc, Hv.
Qed.

Lemma ValidateToken_invalid_claims v (tokenString : string) (now : Z) mapClaims
    (e : error) :
  verified v tokenString mapClaims ->
  Validate (MapClaims mapClaims) now = Some e ->
  ValidateToken v tokenString now =
    (None, Some (Errorf_w "failed to parse token: "
                   (newError "" ErrTokenInvalidClaims [e]))).
Proof.
  intros Hver Hv. pose proof (jwt_Parse_verified v _ now _ Hver) as Hp.
  rewrite Hv in Hp. destruct Hp as [token Hp].
  by apply ValidateToken_parse_error with token.
Qed.

(** C2, as amended. For a token that was decoded, whose key was resolved
    and whose signature was verified, at a clock reading at which its
    expiration claim is absent, not a number, or a number whose whole
    seconds lie before the clock (no leeway: a numeric expiration passes
    the expiration check exactly when the clock is not after its whole
    seconds):
    - ValidateToken returns an error and no claims, whatever the other
      claims are;
    - when the parser checks the expiration as golang-jwt does, an
      expiration that is not a number, and a numeric one other than 0
      that is not after the clock, are refused by the parser with its
      invalid-claims error, which wraps the invalid-type error or "token
      is expired", whatever the other claims are;
    - an expiration that the parser lets through (an absent one, the
      number 0) is refused by the expiration check with "missing or
      invalid exp claim" or "token expired" once the issuer and audience
      checks, which come first, have passed. *)
Theorem C2_expiration_gate v (tokenString : string) (now : Z) mapClaims
    (err : error) :
  verified v tokenString mapClaims ->
  expiration_failure (mapClaims !! "exp") now err ->
  (exists e, ValidateToken v tokenString now = (None, Some e)) /\
  verifyExpiration v mapClaims now = Some err /\
  (forall f, mapClaims !! "exp" = Some (VFloat64 f) ->
     verifyExpiration v mapClaims now = None <-> now <= int64_of_float64 f) /\
  (expiration_checked_by_parser ->
   (forall x, mapClaims !! "exp" = Some x -> (forall f, x <> VFloat64 f) ->
      exists e,
        Is e ErrInvalidType /\
        ValidateToken v tokenString now =
          (None, Some (Errorf_w "failed to parse token: "
                         (newError "" ErrTokenInvalidClaims [e])))) /\
   (forall f, mapClaims !! "exp" = Some (VFloat64 f) ->
      Qnum f <> 0 -> Qnum f <= now * Z.pos (Qden f) ->
      exists e,
        Is e ErrTokenExpired /\
        ValidateToken v tokenString now =
          (None, Some (Errorf_w "failed to parse token: "
                         (newError "" ErrTokenInvalidClaims [e]))))) /\
  (Validate (MapClaims mapClaims) now = None ->
   verifyIssuer v mapClaims = None ->
   verifyAudience v mapClaims = None ->
   ValidateToken v tokenString now = (None, Some err)).
Proof.
  intros Hver Hf. pose proof (verifyExpiration_failure v _ _ _ Hf) as He.
  pose proof (jwt_Parse_verified v _ now _ Hver) as Hp.
  split; [|split; [exact He | split; [apply verifyExpiration_numeric | split]]].
  - destruct (Validate (MapClaims mapClaims) now) as [e|] eqn:Hv.
    + rewrite (ValidateToken_invalid_claims _ _ _ _ _ Hver Hv). by eexists.
    + cbv beta iota in Hp. rewrite (ValidateToken_parsed _ _ _ _ Hp), He.
      destruct (verifyIssuer v mapClaims); [by eexists |].
      destruct (verifyAudience v mapClaims); by eexists.
  - intros Hlib. split.
    + intros x Hx Hnum. specialize (Hlib mapClaims now). rewrite Hx in Hlib.
      assert (Hex : exists e, Validate (MapClaims mapClaims) now = Some e /\
                              Is e ErrInvalidType).
      { destruct x as [| |f| | | |]; try exact Hlib. by destruct (Hnum f). }
      destruct Hex as (e & Hv & His). exists e. split; [exact His |].
      by apply ValidateToken_invalid_claims with mapClaims.
    + intros f Hx Hnz Hle. specialize (Hlib mapClaims now). rewrite Hx in Hlib.
      destruct (Hlib Hnz Hle) as (e & Hv & His). exists e.
      split; [exact His |]. by apply ValidateToken_invalid_claims with mapClaims.
  - intros Hv Hi Ha. rewrite Hv in Hp. cbv beta iota in Hp.
    by rewrite (ValidateToken_parsed _ _ _ _ Hp), Hi, Ha, He.
Qed.

(** ** The group gate *)

Lemma extractUserGroups_claim v mapClaims (g : value) (groups : list string) :
  mapClaims !! "groups" = Some g -> groups_claim g groups ->
  extractUserGroups v mapClaims = (groups, None).
Proof.
  intros Hl Hc. unfold extractUserGroups. rewrite Hl.
  destruct Hc; [by rewrite append_strings_fmap | done].
Qed.

(** C3. With a non-empty list of allowed groups, the group check fails
    with "token missing groups claim" for a token without groups claim and
    with "user not in allowed groups. ..." for a groups claim that is a
    list of strings sharing no element with the allowed ones, and passes
    when a group is shared; for a token that passed the parser,
    ValidateToken returns an error and no claims when the group check
    fails, and returns what the group check decides once the three earlier
    checks have passed. *)
Theorem C3_group_membership v mapClaims :
  AllowedGroups (config v) <> [] ->
  (mapClaims !! "groups" = None ->
   verifyGroupMembership v mapClaims =
     Some (errors_New "token missing groups claim")) /\
  (forall g groups,
      mapClaims !! "groups" = Some g -> groups_claim g groups ->
      ((forall x, x ∈ groups -> x ∉ AllowedGroups (config v)) ->
       verifyGroupMembership v mapClaims =
         Some (errors_New ("user not in allowed groups. User groups: "
                           +:+ fmt_strings groups +:+ ", allowed: "
                           +:+ fmt_strings (AllowedGroups (config v))))) /\
      ((exists x, x ∈ groups /\ x ∈ AllowedGroups (config v)) ->
       verifyGroupMembership v mapClaims = None)) /\
  (forall tokenString now,
      parsed v tokenString now mapClaims ->
      (verifyGroupMembership v mapClaims <> None ->
       exists e, ValidateToken v tokenString now = (None, Some e)) /\
      (verifyIssuer v mapClaims = None ->
       verifyAudience v mapClaims = None ->
       verifyExpiration v mapClaims now = None ->
       ValidateToken v tokenString now =
         match verifyGroupMembership v mapClaims with
         | Some e => (None, Some e)
         | None => (Some mapClaims, None)
         end)).
Proof.
  intros Hne.
  assert (Hlen : (length (AllowedGroups (config v)) =? 0)%nat = false).
  { destruct (AllowedGroups (config v)); [done | reflexivity]. }
  split; [|split].
  - intros Hl. unfold verifyGroupMembership, extractUserGroups.
    by rewrite Hlen, Hl.
  - intros g groups Hl Hc. unfold verifyGroupMembership.
    rewrite Hlen, (extractUserGroups_claim _ _ _ _ Hl Hc).
    destruct (range_userGroups groups (AllowedGroups (config v))) eqn:Hr; simpl.
    + apply range_userGroups_shared in Hr as (x & Hx & Ha).
      split; [intros Hdis; by destruct (Hdis x Hx) | done].
    + split; [done |]. intros Hsh.
      apply range_userGroups_shared in Hsh. congruence.
  - intros tokenString now Hp.
    rewrite (ValidateToken_parsed _ _ _ _ Hp). split.
    + intros Hg.
      destruct (verifyIssuer v mapClaims); [by eexists |].
      destruct (verifyAudience v mapClaims); [by eexists |].
      destruct (verifyExpiration v mapClaims now); [by eexists |].
      destruct (verifyGroupMembership v mapClaims); [by eexists | done].
    + by intros -> -> ->.
Qed.

(** ** Key resolution and the empty store *)

Lemma getKeyFunc_empty_store v (token : Token) :
  jwks v = ∅ -> exists err, getKeyFunc v token = (None, Some err).
Proof.
  intros He. unfold getKeyFunc, KeyRead. rewrite He.
  destruct (Method token); try by eexists.
  destruct (assert_string (Header token !! "kid")) as [kid []]; simpl;
    [|by eexists].
  rewrite lookup_empty. by eexists.
Qed.

Lemma ValidateToken_keyfunc_error v (tokenString : string) (now : Z) :
  (forall token, exists err, getKeyFunc v token = (None, Some err)) ->
  exists err, ValidateToken v tokenString now = (None, Some err).
Proof.
  intros Hk. unfold ValidateToken.
  destruct (jwt_Parse tokenString (getKeyFunc v) now) as [token [e|]] eqn:Hp;
    [by eexists |].
  apply jwt_Parse_ok in Hp as (unverified & key & _ & Hkey & _).
  destruct (Hk unverified) as [err Herr]. congruence.
Qed.

(** C4. When the first fetch of the key set fails, NewValidator still
    returns a validator; its key set is empty, so that every lookup of a
    key identifier fails, the key function fails for every token, and
    ValidateToken returns an error and no claims for every token string. *)
Theorem C4_fetch_failure_fails_closed (cfg : Config)
    (storage : gmap string (JWK CryptoKey)) (e : error) :
  NewStorageFromHTTP (TrimSuffix (IssuerURL cfg) "/" +:+ "/.well-known/jwks.json")
    = (storage, Some e) ->
  let v := fst (NewValidator cfg) in
  config v = cfg /\
  jwks v = ∅ /\
  (forall kid, KeyRead (jwks v) kid = ({| Key := None |}, Some (ErrKeyNotFound kid))) /\
  (forall token, exists err, getKeyFunc v token = (None, Some err)) /\
  (forall tokenString now,
      exists err, ValidateToken v tokenString now = (None, Some err)).
Proof.
  intros Hf. unfold NewValidator. rewrite Hf. cbn zeta iota beta delta [fst].
  set (v := {| config := cfg; jwks := NewMemoryStorage |}).
  split; [done | split; [done | split; [|split]]].
  - intros kid. unfold KeyRead. simpl. unfold NewMemoryStorage.
    by rewrite lookup_empty.
  - intros token. by apply getKeyFunc_empty_store.
  - intros tokenString now. apply ValidateToken_keyfunc_error.
    intros token. by apply getKeyFunc_empty_store.
Qed.

(** C5. ValidateToken returns either the claims of the token and no
    error, and then the token was decoded, its key resolved, its signature
    verified, its registered claims accepted by the parser, and the
    issuer, audience, expiration and group checks all passed; or an error
    and no claims. *)
Theorem C5_no_partial_result v (tokenString : string) (now : Z) :
  (exists unverified key mapClaims,
      ParseUnverified tokenString = (unverified, None) /\
      getKeyFunc v unverified = (key, None) /\
      Verify (Method unverified) tokenString key = None /\
      Validate (TokenClaims unverified) now = None /\
      TokenClaims unverified = MapClaims mapClaims /\
      verifyIssuer v mapClaims = None /\
      verifyAudience v mapClaims = None /\
      verifyExpiration v mapClaims now = None /\
      verifyGroupMembership v mapClaims = None /\
      ValidateToken v tokenString now = (Some mapClaims, None))
  \/ (exists err, ValidateToken v tokenString now = (None, Some err)).
Proof.
  unfold ValidateToken.
  destruct (jwt_Parse tokenString (getKeyFunc v) now) as [token [e|]] eqn:Hp;
    [right; by eexists |].
  apply jwt_Parse_ok in Hp as (unverified & key & Hu & Hk & Hs & Hc & ->).
  simpl. destruct (TokenClaims unverified) as [mapClaims|] eqn:Hm; simpl;
    [|right; by eexists].
  destruct (verifyIssuer v mapClaims) eqn:Hi; [right; by eexists |].
  destruct (verifyAudience v mapClaims) eqn:Ha; [right; by eexists |].
  destruct (verifyExpiration v mapClaims now) eqn:He; [right; by eexists |].
  destruct (verifyGroupMembership v mapClaims) eqn:Hg; [right; by eexists |].
  left. exists unverified, key, mapClaims.
  rewrite Hm. repeat split; assumption || reflexivity.
Qed.

(** C6. A decoded token whose signing method is not asymmetric (an HMAC
    method, or none) is refused by the key function with "unexpected
    signing method: <alg>" before the key store is read, and ValidateToken
    returns that error, wrapped by the parser as a key-function failure:
    the outcome involves neither the signature verification nor any claim
    check, which the parser runs only after the key function. *)
Theorem C6_non_asymmetric_rejected v (tokenString : string) (token : Token)
    (now : Z) :
  ParseUnverified tokenString = (token, None) ->
  asymmetric (Method token) = false ->
  let unsupported :=
    errors_New ("unexpected signing method: "
                +:+ fmt_v (default VNil (Header token !! "alg"))) in
  getKeyFunc v token = (None, Some unsupported) /\
  jwt_Parse tokenString (getKeyFunc v) now =
    (token, Some (newError "error while executing keyfunc"
                           ErrTokenUnverifiable [unsupported])) /\
  ValidateToken v tokenString now =
    (None, Some (Errorf_w "failed to parse token: "
                   (newError "error while executing keyfunc"
                             ErrTokenUnverifiable [unsupported]))).
Proof.
  intros Hu Hm unsupported.
  assert (Hk : getKeyFunc v token = (None, Some unsupported)).
  { unfold getKeyFunc. by destruct (Method token). }
  assert (Hp : jwt_Parse tokenString (getKeyFunc v) now =
               (token, Some (newError "error while executing keyfunc"
                                      ErrTokenUnverifiable [unsupported]))).
  { unfold jwt_Parse. by rewrite Hu, Hk. }
  split; [done | split; [done |]].
  by apply ValidateToken_parse_error with token.
Qed.

(** ** The middleware *)

Lemma cut_Some (s : string) (sep : ascii) (before after : string) :
  cut s sep = Some (before, after) -> s = before +:+ String sep after.
Proof.
  revert before after. induction s as [|c s IH]; simpl; [discriminate |].
  intros before after. destruct (Ascii.eqb_spec c sep) as [->|Hne].
  - by intros [= <- <-].
  - destruct (cut s sep) as [[b a]|]; [|discriminate].
    intros [= <- <-]. simpl. by rewrite (IH b a).
Qed.

Lemma cut_app (before after : string) (sep : ascii) :
  cut before sep = None ->
  cut (before +:+ String sep after) sep = Some (before, after).
Proof.
  induction before as [|c s IH]; simpl.
  - by rewrite Ascii.eqb_refl.
  - destruct (Ascii.eqb c sep); [discriminate |].
    destruct (cut s sep) as [[]|]; [discriminate |].
    intros _. by rewrite IH.
Qed.

Lemma lower_byte_space (c : ascii) :
  Ascii.eqb c " " = true -> Ascii.eqb (lower_byte c) " " = true.
Proof. intros Hc. apply Ascii.eqb_eq in Hc as ->. reflexivity. Qed.

Lemma cut_ToLower (s : string) :
  cut (ToLower s) " " = None -> cut s " " = None.
Proof.
  induction s as [|c s IH]; simpl; [done |].
  destruct (Ascii.eqb c " ") eqn:Hc.
  - by rewrite (lower_byte_space _ Hc).
  - destruct (Ascii.eqb (lower_byte c) " "); [discriminate |].
    destruct (cut (ToLower s) " ") as [[]|]; [discriminate |].
    intros _. by rewrite IH.
Qed.

Lemma SplitN_2 (s : string) (sep : ascii) :
  SplitN s sep 2 =
    match cut s sep with
    | Some (before, after) => [before; after]
    | None => [s]
    end.
Proof. simpl. by destruct (cut s sep) as [[]|]. Qed.

(** The header gate of the code and the form of the specification agree. *)
Lemma bearer_form_SplitN (header : string) :
  bearer_form header <->
  exists scheme token,
    SplitN header " " 2 = [scheme; token] /\ ToLower scheme = "bearer".
Proof.
  split; intros (scheme & token & Hh & Hs); exists scheme, token;
    (split; [|exact Hs]).
  - rewrite SplitN_2, Hh.
    replace (" " +:+ token) with (String " " token) by reflexivity.
    rewrite cut_app; [done |]. apply cut_ToLower. by rewrite Hs.
  - rewrite SplitN_2 in Hh.
    destruct (cut header " ") as [[b a]|] eqn:Hc; [|discriminate].
    injection Hh as <- <-. by apply cut_Some in Hc.
Qed.

Lemma bearer_form_dec (header : string) :
  bearer_form header \/ ~ bearer_form header.
Proof.
  rewrite bearer_form_SplitN, SplitN_2.
  destruct (cut header " ") as [[b a]|].
  - destruct (String.eqb_spec (ToLower b) "bearer") as [Hb|Hnb].
    + left. by exists b, a.
    + right. intros (scheme & token & [= <- <-] & Hs). done.
  - right. intros (scheme & token & Hs & _). discriminate.
Qed.

Lemma Middleware_missing v (now : Z) (ctx : Context) :
  GetHeader ctx "Authorization" = "" ->
  Middleware v now ctx =
    (AbortWithStatusJSON ctx StatusUnauthorized
       {[ "error" := VString "missing authorization header" ]}, []).
Proof. intros Hh. unfold Middleware. by rewrite Hh. Qed.

Lemma Middleware_malformed v (now : Z) (ctx : Context) :
  GetHeader ctx "Authorization" <> "" ->
  ~ bearer_form (GetHeader ctx "Authorization") ->
  Middleware v now ctx =
    (AbortWithStatusJSON ctx StatusUnauthorized
       {[ "error" := VString "invalid authorization header format" ]}, []).
Proof.
  intros Hne Hnb. unfold Middleware.
  destruct (String.eqb_spec (GetHeader ctx "Authorization") ""); [done |].
  rewrite bearer_form_SplitN, SplitN_2 in Hnb. rewrite SplitN_2.
  destruct (cut (GetHeader ctx "Authorization") " ") as [[b a]|]; [|done].
  simpl. destruct (String.eqb_spec (ToLower b) "bearer") as [Hb|]; [|done].
  destruct Hnb. by exists b, a.
Qed.

(** Past the header gate the handler calls the validator on the second
    part and acts on its answer. *)
Lemma Middleware_bearer v (now : Z) (ctx : Context) (scheme token : string) :
  SplitN (GetHeader ctx "Authorization") " " 2 = [scheme; token] ->
  ToLower scheme = "bearer" ->
  Middleware v now ctx =
    match ValidateToken v token now with
    | (_, Some e) =>
        (AbortWithStatusJSON ctx StatusUnauthorized
           {[ "error" := VString ("invalid token: " +:+ Error e) ]},
         [ CallValidateToken token;
           Logged {| level := WarnLevel; message := "token validation failed";
                     fields := [("error", Error e);
                                ("remote_addr", ClientIP (CtxRequest ctx))] |} ])
    | (claims, None) =>
        let claims := default ∅ claims in
        let ctx' :=
          set_if_string
            (set_if_string (CtxSet ctx "oidc_claims" (StoredClaims claims))
                           claims "email" "user_email")
            claims "sub" "user_id" in
        (ctx',
         [ CallValidateToken token;
           Logged {| level := DebugLevel; message := "request authenticated";
                     fields := [("user_email", GetString ctx' "user_email");
                                ("user_id", GetString ctx' "user_id");
                                ("path", URLPath (CtxRequest ctx'))] |};
           CallNext ])
    end.
Proof.
  intros Hs Hb. unfold Middleware.
  destruct (String.eqb_spec (GetHeader ctx "Authorization") "") as [He|_].
  { rewrite He in Hs. discriminate. }
  rewrite Hs. simpl. rewrite Hb. simpl.
  by destruct (ValidateToken v token now) as [claims [e|]].
Qed.

Lemma set_if_string_flags (ctx : Context) (claims : gmap string value)
    (key name : string) :
  aborted (set_if_string ctx claims key name) = aborted ctx /\
  response (set_if_string ctx claims key name) = response ctx.
Proof.
  unfold set_if_string. by destruct (assert_string (claims !! key)) as [x []].
Qed.

(** C7. A request whose Authorization header is missing (or empty), or
    is not of the form scheme-space-token with the scheme bearer, is
    answered at once with status 401 and the JSON object whose error field
    gives the reason; the handler stops there, without a call of
    ValidateToken, a log record or a call of the next handler.  A call of
    ValidateToken happens only for a header of the bearer form. *)
Theorem C7_header_gate v (now : Z) (ctx : Context) :
  let header := GetHeader ctx "Authorization" in
  let r := Middleware v now ctx in
  (RequestHeader (CtxRequest ctx) !! "Authorization" = None -> header = "") /\
  (header = "" ->
   response (fst r) =
     Some (401, {[ "error" := VString "missing authorization header" ]}) /\
   aborted (fst r) = true /\ snd r = []) /\
  (header <> "" -> ~ bearer_form header ->
   response (fst r) =
     Some (401, {[ "error" := VString "invalid authorization header format" ]}) /\
   aborted (fst r) = true /\ snd r = []) /\
  (forall tokenString,
      CallValidateToken tokenString ∈ snd r -> bearer_form header).
Proof.
  intros header r. subst header r. split; [|split; [|split]].
  - intros Hn. unfold GetHeader. by rewrite Hn.
  - intros Hh. by rewrite (Middleware_missing _ _ _ Hh).
  - intros Hne Hnb. by rewrite (Middleware_malformed _ _ _ Hne Hnb).
  - intros tokenString Hin.
    destruct (String.eqb_spec (GetHeader ctx "Authorization") "") as [Hh|Hne].
    { rewrite (Middleware_missing _ _ _ Hh) in Hin. inversion Hin. }
    destruct (bearer_form_dec (GetHeader ctx "Authorization"))
      as [Hb|Hnb]; [exact Hb |].
    rewrite (Middleware_malformed _ _ _ Hne Hnb) in Hin. inversion Hin.
Qed.

(** C10. When the Authorization header splits at its first space into
    two parts of which the first is bearer in any letter case, the handler
    passes the header gate and calls ValidateToken on the second part,
    also when that part is empty; the answer of the validator decides
    between the 401 response with "invalid token: ..." and the call of the
    next handler. *)
Theorem C10_scheme_case_insensitive v (now : Z) (ctx : Context)
    (scheme token : string) :
  SplitN (GetHeader ctx "Authorization") " " 2 = [scheme; token] ->
  ToLower scheme = "bearer" ->
  let r := Middleware v now ctx in
  (exists rest, snd r = CallValidateToken token :: rest) /\
  (forall e, snd (ValidateToken v token now) = Some e ->
     response (fst r) =
       Some (401, {[ "error" := VString ("invalid token: " +:+ Error e) ]}) /\
     aborted (fst r) = true /\ CallNext ∉ snd r) /\
  (snd (ValidateToken v token now) = None ->
     response (fst r) = response ctx /\ aborted (fst r) = aborted ctx /\
     last (snd r) = Some CallNext).
Proof.
  intros Hs Hb r. subst r. rewrite (Middleware_bearer _ _ _ _ _ Hs Hb).
  destruct (ValidateToken v token now) as [claims [e|]]; simpl.
  - split; [by eexists | split; [|done]].
    intros e' [= <-]. split; [done | split; [done |]].
    intros Hin. repeat (apply elem_of_cons in Hin as [Hin|Hin]; [done |]).
    inversion Hin.
  - split; [by eexists | split; [done |]]. intros _.
    destruct (set_if_string_flags
                (set_if_string (CtxSet ctx "oidc_claims"
                                  (StoredClaims (default ∅ claims)))
                               (default ∅ claims) "email" "user_email")
                (default ∅ claims) "sub" "user_id") as [-> ->].
    destruct (set_if_string_flags
                (CtxSet ctx "oidc_claims" (StoredClaims (default ∅ claims)))
                (default ∅ claims) "email" "user_email") as [-> ->].
    done.
Qed.

End ValidatorProperties.

(** ** The server command *)

Section ServerProperties.

Context `{L : Library}.

Lemma NewValidator_config (cfg : Config) : config (fst (NewValidator cfg)) = cfg.
Proof.
  unfold NewValidator.
  by destruct (NewStorageFromHTTP _) as [storage [e|]].
Qed.

(** The configuration of the validator of a started server: the one read
    from the environment, with the default group when it has none. *)
Lemma serverCmd_Run_config (env : gmap string string) (v : Validator)
    (logged : list Entry) :
  serverCmd_Run env = Started v logged ->
  config v =
    {| IssuerURL := IssuerURL (LoadConfigFromEnv env);
       Audience := Audience (LoadConfigFromEnv env);
       AllowedGroups :=
         match AllowedGroups (LoadConfigFromEnv env) with
         | [] => ["engineering"]
         | groups => groups
         end |}.
Proof.
  unfold serverCmd_Run. generalize (LoadConfigFromEnv env).
  intros [iss aud groups]. cbn [IssuerURL Audience AllowedGroups].
  destruct (String.eqb iss ""); [discriminate |].
  destruct (String.eqb aud ""); [discriminate |].
  destruct (String.eqb (Getenv env "CLOUDFLARE_API_TOKEN") ""); [discriminate |].
  destruct (String.eqb (Getenv env "CLOUDFLARE_ZONE_ID") ""); [discriminate |].
  destruct NewProduction; [discriminate |].
  match goal with
  | |- context [NewValidator ?c] =>
      pose proof (NewValidator_config c) as Hc;
      destruct (NewValidator c) as [v' logged']
  end.
  intros [= <- <-]. cbn [fst] in Hc. rewrite Hc.
  by destruct groups.
Qed.

Lemma LoadConfigFromEnv_unset (env : gmap string string) :
  env !! "OIDC_ALLOWED_GROUPS" = None ->
  AllowedGroups (LoadConfigFromEnv env) = [].
Proof. intros He. unfold LoadConfigFromEnv, Getenv. by rewrite He. Qed.

(** C9. The validator of a server started by the server command has a
    non-empty list of allowed groups: the list read from the environment
    when that is not empty, and the one group engineering when the
    variable is unset or holds no group.  Its group check is therefore
    never skipped: it passes only for a token with a groups claim that
    shares a group with the list. *)
Theorem C9_server_default_groups (env : gmap string string) (v : Validator)
    (logged : list Entry) :
  serverCmd_Run env = Started v logged ->
  AllowedGroups (config v) <> [] /\
  (env !! "OIDC_ALLOWED_GROUPS" = None ->
   AllowedGroups (config v) = ["engineering"]) /\
  (AllowedGroups (LoadConfigFromEnv env) = [] ->
   AllowedGroups (config v) = ["engineering"]) /\
  (AllowedGroups (LoadConfigFromEnv env) <> [] ->
   AllowedGroups (config v) = AllowedGroups (LoadConfigFromEnv env)) /\
  (forall mapClaims : gmap string value,
      verifyGroupMembership v mapClaims = None ->
      exists userGroups g,
        extractUserGroups v mapClaims = (userGroups, None) /\
        g ∈ userGroups /\ g ∈ AllowedGroups (config v)).
Proof.
  intros Hrun. pose proof (serverCmd_Run_config _ _ _ Hrun) as Hc.
  assert (Hne : AllowedGroups (config v) <> []).
  { rewrite Hc. cbn [AllowedGroups].
    by destruct (AllowedGroups (LoadConfigFromEnv env)). }
  assert (Hempty : AllowedGroups (LoadConfigFromEnv env) = [] ->
                   AllowedGroups (config v) = ["engineering"]).
  { intros He. rewrite Hc. cbn [AllowedGroups]. by rewrite He. }
  split; [exact Hne | split; [|split; [exact Hempty | split]]].
  - intros Hu. apply Hempty. by apply LoadConfigFromEnv_unset.
  - intros Hn. rewrite Hc. cbn [AllowedGroups].
    by destruct (AllowedGroups (LoadConfigFromEnv env)).
  - intros mapClaims. unfold verifyGroupMembership.
    destruct (AllowedGroups (config v)) as [|a allowed] eqn:Ha; [done |].
    simpl. destruct (extractUserGroups v mapClaims) as [userGroups [e|]];
      [discriminate |].
    destruct (range_userGroups userGroups (a :: allowed)) eqn:Hr;
      [|discriminate].
    intros _. apply range_userGroups_shared in Hr as (g & Hg & Hall).
    by exists userGroups, g.
Qed.

End ServerProperties.

(** ** The client's token exchange *)

Section ClientProperties.

Context `{C : Client}.

(** [exchangeJWTForOIDC] returns a nil response only with an error. *)
Lemma exchangeJWTForOIDC_nil (config : KubectlConfig) (sshJWT : string) :
  exchangeJWTForOIDC config sshJWT <> (None, None).
Proof.
  unfold exchangeJWTForOIDC.
  destruct (NewRequestWithContext _ _); [done |].
  destruct (Do _) as [resp [e|]]; [done |].
  destruct (Body resp) as [respBody [e|]]; [done |].
  destruct (negb (StatusCode resp =? StatusOK)); [done |].
  by destruct (Unmarshal respBody) as [token [e|]].
Qed.

(** The token chosen from a response of the exchange. *)
Lemma getOIDCToken_exchanged (flags : Flags) (env : gmap string string)
    (cachedConfig : option Config.Config) (sshJWT : string)
    (resp : DexTokenResponse) :
  CreateSSHSignedJWT (oidcClientConfig flags env cachedConfig) = (sshJWT, None) ->
  exchangeJWTForOIDC (oidcClientConfig flags env cachedConfig) sshJWT
    = (Some resp, None) ->
  getOIDCToken flags env cachedConfig =
    if negb (String.eqb (IDToken resp) "") then (IDToken resp, None)
    else if negb (String.eqb (AccessToken resp) "") then (AccessToken resp, None)
    else ("", Some (errors_New "no token received from Dex")).
Proof.
  intros Hs Hx. unfold getOIDCToken. rewrite Hs, Hx. simpl.
  destruct (String.eqb_spec (IDToken resp) "") as [Hid|Hid]; simpl.
  - destruct (String.eqb_spec (AccessToken resp) "") as [Hat|Hat]; simpl;
      [by rewrite Hat | done].
  - by destruct (String.eqb_spec (IDToken resp) "").
Qed.

(** C8. After a successful exchange getOIDCToken returns the identity
    token of the response when it is not empty, else the access token when
    that is not empty, else the error "no token received from Dex"; and it
    returns that error only then, that is after a successful exchange whose
    response has both fields empty. *)
Theorem C8_token_selection (flags : Flags) (env : gmap string string)
    (cachedConfig : option Config.Config) :
  let config := oidcClientConfig flags env cachedConfig in
  let noToken := errors_New "no token received from Dex" in
  (forall sshJWT resp,
      CreateSSHSignedJWT config = (sshJWT, None) ->
      exchangeJWTForOIDC config sshJWT = (Some resp, None) ->
      getOIDCToken flags env cachedConfig =
        if negb (String.eqb (IDToken resp) "") then (IDToken resp, None)
        else if negb (String.eqb (AccessToken resp) "")
        then (AccessToken resp, None)
        else ("", Some noToken)) /\
  (snd (getOIDCToken flags env cachedConfig) = Some noToken <->
   exists sshJWT resp,
     CreateSSHSignedJWT config = (sshJWT, None) /\
     exchangeJWTForOIDC config sshJWT = (Some resp, None) /\
     IDToken resp = "" /\ AccessToken resp = "").
Proof.
  intros config noToken. split.
  - intros sshJWT resp. apply getOIDCToken_exchanged.
  - split.
    + intros Hno.
      destruct (CreateSSHSignedJWT config) as [sshJWT [e|]] eqn:Hs.
      { unfold getOIDCToken in Hno. fold config in Hno. rewrite Hs in Hno.
        discriminate. }
      destruct (exchangeJWTForOIDC config sshJWT) as [[resp|] [e|]] eqn:Hx.
      * unfold getOIDCToken in Hno. fold config in Hno.
        rewrite Hs, Hx in Hno. discriminate.
      * exists sshJWT, resp.
        rewrite (getOIDCToken_exchanged _ _ _ _ _ Hs Hx) in Hno.
        destruct (String.eqb_spec (IDToken resp) ""); [|discriminate].
        destruct (String.eqb_spec (AccessToken resp) ""); [|discriminate].
        done.
      * unfold getOIDCToken in Hno. fold config in Hno.
        rewrite Hs, Hx in Hno. discriminate.
      * by destruct (exchangeJWTForOIDC_nil config sshJWT).
    + intros (sshJWT & resp & Hs & Hx & Hid & Hat).
      rewrite (getOIDCToken_exchanged _ _ _ _ _ Hs Hx), Hid, Hat. done.
Qed.

End ClientProperties.

(** * The properties on the concrete instance *)

Import Example.

(** C1 on a list that holds the configured audience next to another. *)
Lemma C1_audience_membership_witness :
  claims_good !! "aud" = Some (VSlice (VString <$> [other; audience])) /\
  verifyAudience (L := up) validator claims_good = None.
Proof.
  assert (Hl : claims_good !! "aud" = Some (VSlice (VString <$> [other; audience])))
    by (vm_compute; reflexivity).
  split; [exact Hl |].
  apply (proj1 (C1_audience_membership (L := up) validator claims_good
                  _ [other; audience] Hl (audience_list _))).
  right. left.
Defined.

(** The stand-in [validate_registered] checks the expiration as the
    parser is taken to. *)
Lemma validate_registered_checks : expiration_checked_by_parser (L := up_exp).
Proof.
  intros m now.
  change (Validate (MapClaims m) now) with (validate_registered (MapClaims m) now).
  unfold validate_registered.
  assert (Hty : Is (wrapErrors (Error (newError "exp is invalid" ErrInvalidType []))
                                [newError "exp is invalid" ErrInvalidType []])
                             ErrInvalidType).
  { eapply Is_joined; [left |].
    eapply Is_joined; [left | apply Is_same]. }
  destruct (m !! "exp") as [[| |f| | | |]|]; try (by eexists; split; [|apply Hty]);
    [|done].
  intros Hnz Hle.
  destruct (Z.eqb_spec (Qnum f) 0) as [|_]; [done |].
  destruct (Z.ltb_spec (now * Z.pos (Qden f)) (Qnum f)); [lia |].
  eexists. split; [reflexivity |].
  eapply Is_joined; [left | apply Is_same].
Qed.

(** C2 on a token of a foreign issuer that expired at 900, read at 1000:
    the parser refuses it as expired, whatever its issuer. *)
Lemma C2_expiration_gate_witness :
  verified (L := up_exp) validator_exp "foreign-expired" claims_foreign_expired /\
  exists e,
    Is e ErrTokenExpired /\
    ValidateToken (L := up_exp) validator_exp "foreign-expired" 1000 =
      (None, Some (Errorf_w "failed to parse token: "
                     (newError "" ErrTokenInvalidClaims [e]))).
Proof.
  assert (Hver : verified (L := up_exp) validator_exp "foreign-expired"
                   claims_foreign_expired).
  { exists (rs256 claims_foreign_expired), (Some "provider-key-1").
    repeat split; vm_compute; reflexivity. }
  assert (Hx : claims_foreign_expired !! "exp" = Some (VFloat64 (Qmake 900 1)))
    by (vm_compute; reflexivity).
  assert (Hf : expiration_failure (L := up_exp) (claims_foreign_expired !! "exp")
                 1000 (errors_New "token expired")).
  { rewrite Hx. apply expiration_past. vm_compute. reflexivity. }
  split; [exact Hver |].
  destruct (C2_expiration_gate (L := up_exp) validator_exp "foreign-expired" 1000
              claims_foreign_expired (errors_New "token expired") Hver Hf)
    as (_ & _ & _ & Hparser & _).
  destruct (Hparser validate_registered_checks) as [_ Hpast].
  apply (Hpast (Qmake 900 1) Hx); vm_compute; discriminate.
Defined.

(** Three tokens with a failing expiration whose error is not an
    expiration error.  A token of a foreign issuer without expiration
    claim, and one with the expiration 0, pass the parser and are refused
    for their issuer; a token that expired at 1600, read at 2000, whose
    key is not in the key set is refused for the key. *)
Lemma C2_error_depends_on_issuer :
  let invalid_issuer :=
    errors_New
      "invalid issuer: expected https://dex.example.com, got https://evil.example.com" in
  (verified (L := up_exp) validator_exp "foreign-no-exp" claims_foreign_no_exp /\
   claims_foreign_no_exp !! "exp" = None /\
   verifyExpiration (L := up_exp) validator_exp claims_foreign_no_exp 1000
     = Some (errors_New "missing or invalid exp claim") /\
   ValidateToken (L := up_exp) validator_exp "foreign-no-exp" 1000
     = (None, Some invalid_issuer)) /\
  (verified (L := up_exp) validator_exp "foreign-zero-exp" claims_foreign_zero_exp /\
   claims_foreign_zero_exp !! "exp" = Some (VFloat64 (Qmake 0 1)) /\
   int64_of_float64 (L := up_exp) (Qmake 0 1) < 1000 /\
   verifyExpiration (L := up_exp) validator_exp claims_foreign_zero_exp 1000
     = Some (errors_New "token expired") /\
   ValidateToken (L := up_exp) validator_exp "foreign-zero-exp" 1000
     = (None, Some invalid_issuer)) /\
  (claims_good !! "exp" = Some (VFloat64 (Qmake 1600 1)) /\
   (Error <$> snd (ValidateToken (L := up_exp)
                     (@Build_Validator up_exp cfg ∅) "good" 2000))
     = Some "failed to parse token: token is unverifiable: error while executing keyfunc: failed to find key k1 in JWKS: key not found: kid k1") /\
  invalid_issuer <> errors_New "missing or invalid exp claim" /\
  invalid_issuer <> errors_New "token expired".
Proof.
  intros invalid_issuer.
  split; [|split; [|split; [|split; discriminate]]].
  - split; [|split; [|split]]; try (vm_compute; reflexivity).
    exists (rs256 claims_foreign_no_exp), (Some "provider-key-1").
    repeat split; vm_compute; reflexivity.
  - split; [|split; [|split; [|split]]]; try (vm_compute; reflexivity).
    exists (rs256 claims_foreign_zero_exp), (Some "provider-key-1").
    repeat split; vm_compute; reflexivity.
  - split; vm_compute; reflexivity.
Qed.

(** C3 on the groups engineering and sre against the allowed group
    engineering. *)
Lemma C3_group_membership_witness :
  AllowedGroups (config (L := up) validator) <> [] /\
  verifyGroupMembership (L := up) validator claims_good = None.
Proof.
  assert (Hne : AllowedGroups (config (L := up) validator) <> []) by discriminate.
  split; [exact Hne |].
  destruct (C3_group_membership (L := up) validator claims_good Hne)
    as (_ & Hlist & _).
  refine (proj2 (Hlist (VSlice (VString <$> ["engineering"; "sre"]))
                   ["engineering"; "sre"] _ (groups_decoded _)) _).
  - vm_compute; reflexivity.
  - exists "engineering". split; left.
Defined.

(** C4 when the provider does not answer. *)
Lemma C4_fetch_failure_fails_closed_witness :
  jwks (fst (NewValidator (L := down) cfg)) = ∅ /\
  forall tokenString now,
    exists err,
      ValidateToken (L := down) (fst (NewValidator (L := down) cfg)) tokenString now
        = (None, Some err).
Proof.
  destruct (C4_fetch_failure_fails_closed (L := down) cfg ∅
              (errors_New "failed to perform first HTTP request for JWK Set")
              eq_refl) as (_ & He & _ & _ & Hv).
  split; [exact He | exact Hv].
Defined.

(** C6 on an HS256 token. *)
Lemma C6_non_asymmetric_rejected_witness :
  ValidateToken (L := up) validator "hmac" 1000 =
    (None, Some (Errorf_w "failed to parse token: "
                   (newError "error while executing keyfunc" ErrTokenUnverifiable
                      [errors_New "unexpected signing method: HS256"]))).
Proof.
  exact (proj2 (proj2 (C6_non_asymmetric_rejected (L := up) validator "hmac"
                         (hs256 claims_good) 1000 eq_refl eq_refl))).
Defined.

(** C9 on an environment whose group list holds blanks only. *)
Lemma C9_server_default_groups_witness :
  serverCmd_Run (L := up) server_env = Started validator [] /\
  AllowedGroups (config (L := up) validator) = ["engineering"].
Proof.
  assert (Hrun : serverCmd_Run (L := up) server_env = Started validator [])
    by (vm_compute; reflexivity).
  split; [exact Hrun |].
  destruct (C9_server_default_groups (L := up) server_env validator [] Hrun)
    as (_ & _ & Hempty & _).
  apply Hempty. vm_compute. reflexivity.
Defined.

(** C10 on the header made of BEARER and a space, with an empty token. *)
Lemma C10_scheme_case_insensitive_witness :
  exists rest,
    snd (Middleware (L := up) validator 1000 (request (Some "BEARER ")))
      = CallValidateToken "" :: rest.
Proof.
  refine (proj1 (C10_scheme_case_insensitive (L := up) validator 1000
                   (request (Some "BEARER ")) "BEARER" "" _ _)).
  - vm_compute; reflexivity.
  - reflexivity.
Defined.

(** The end-to-end scenario of the specification: the token is accepted
    ten minutes before it expires, and the subject is the token's. *)
Example ValidateToken_accepts :
  ValidateToken (L := up) validator "good" 1000 = (Some claims_good, None) /\
  claims_good !! "sub" = Some (VString "alice").
Proof. split; vm_compute; reflexivity. Qed.

(** The header gate on a missing header, a foreign scheme and a lower-case
    scheme. *)
Example Middleware_gate :
  snd (Middleware (L := up) validator 1000 (request None)) = [] /\
  snd (Middleware (L := up) validator 1000 (request (Some "Basic good"))) = [] /\
  exists rest,
    snd (Middleware (L := up) validator 1000 (request (Some "bearer good")))
      = CallValidateToken "good" :: rest ++ [CallNext].
Proof.
  split; [vm_compute; reflexivity | split; [vm_compute; reflexivity |]].
  eexists [_]. vm_compute. reflexivity.
Qed.

(** The choice of the token on the three shapes of a response. *)
Example getOIDCToken_selection :
  getOIDCToken (C := client {| IDToken := "id"; AccessToken := "at" |}) flags ∅ None
    = ("id", None) /\
  getOIDCToken (C := client {| IDToken := ""; AccessToken := "at" |}) flags ∅ None
    = ("at", None) /\
  getOIDCToken (C := client {| IDToken := ""; AccessToken := "" |}) flags ∅ None
    = ("", Some (errors_New "no token received from Dex")).
Proof. repeat split; vm_compute; reflexivity. Qed.

(** * Further properties of the validator *)

Section MoreValidatorProperties.

Context `{L : Library}.

Implicit Types (v : Validator) (mapClaims : gmap string value).

Lemma verifyIssuer_match v mapClaims :
  mapClaims !! "iss" = Some (VString (IssuerURL (config v))) ->
  verifyIssuer v mapClaims = None.
Proof.
  intros Hi. unfold verifyIssuer. rewrite Hi. simpl.
  by rewrite String.eqb_refl.
Qed.

(** X1. The issuer check passes exactly for an issuer claim that is a string
    equal to the configured issuer URL, byte for byte; every failure is the
    error "invalid issuer: expected ..., got ...", where the second part is
    the claim when it is a string and empty otherwise. *)
Theorem verifyIssuer_exact v mapClaims :
  (verifyIssuer v mapClaims = None <->
   mapClaims !! "iss" = Some (VString (IssuerURL (config v)))) /\
  (forall e, verifyIssuer v mapClaims = Some e ->
     e = errors_New ("invalid issuer: expected " +:+ IssuerURL (config v)
                     +:+ ", got " +:+ fst (assert_string (mapClaims !! "iss")))).
Proof.
  unfold verifyIssuer.
  destruct (mapClaims !! "iss") as [[| | |iss| | |]|]; simpl;
    try (split; [split; [discriminate | intros [=]] | by intros e [= <-]]).
  destruct (String.eqb_spec iss (IssuerURL (config v))) as [->|Hne]; simpl.
  - split; [done | discriminate].
  - split; [split; [discriminate | by intros [= ->]] | by intros e [= <-]].
Qed.

Lemma append_strings_elem_of (l : list value) (x : string) :
  x ∈ append_strings l <-> VString x ∈ l.
Proof.
  induction l as [|a l IH]; simpl.
  - split; intros Hin; inversion Hin.
  - destruct a as [| | |s| | |];
      try (rewrite IH; split;
           [by right | intros [Heq|Hin]%elem_of_cons; [discriminate | done]]).
    rewrite !elem_of_cons, IH.
    split; (intros [Heq|Hin]; [left; congruence | by right]).
Qed.

(** X2. In an audience list the values that are not strings are passed over:
    the check succeeds exactly when the configured audience occurs in the
    list as a string.  An audience claim that is neither a string nor a
    list, or is absent, is an "invalid audience claim type". *)
Theorem verifyAudience_mixed_list v mapClaims :
  (forall l, mapClaims !! "aud" = Some (VSlice l) ->
     verifyAudience v mapClaims = None <-> VString (Audience (config v)) ∈ l) /\
  ((forall s, mapClaims !! "aud" <> Some (VString s)) ->
   (forall l, mapClaims !! "aud" <> Some (VSlice l)) ->
   verifyAudience v mapClaims = Some (errors_New "invalid audience claim type")).
Proof.
  split.
  - intros l Hl. unfold verifyAudience, extractAudiences. rewrite Hl.
    rewrite <- append_strings_elem_of, <- range_audiences_elem_of.
    by destruct (range_audiences (append_strings l) (Audience (config v))).
  - intros Hs Hl. unfold verifyAudience, extractAudiences.
    destruct (mapClaims !! "aud") as [[| | |s|l| |]|]; try done.
    + by destruct (Hs s).
    + by destruct (Hl l).
Qed.

(** X3. A groups claim that is present but is neither a list nor a slice of
    strings, for instance one group given as a plain string, fails the
    group check with "invalid groups claim type", whatever its content. *)
Theorem verifyGroupMembership_type v mapClaims (g : value) :
  AllowedGroups (config v) <> [] ->
  mapClaims !! "groups" = Some g ->
  (forall l, g <> VSlice l) -> (forall l, g <> VStrings l) ->
  verifyGroupMembership v mapClaims = Some (errors_New "invalid groups claim type").
Proof.
  intros Hne Hg Hs Hl. unfold verifyGroupMembership, extractUserGroups.
  destruct (AllowedGroups (config v)) as [|a0 allowed]; [done |].
  simpl. rewrite Hg.
  destruct g as [| | | |l| |l]; try done.
  - by destruct (Hs l).
  - by destruct (Hl l).
Qed.

(** X4. With an empty list of allowed groups the group check passes for every
    claims map, with or without a groups claim and whatever its type; a
    token that passed the parser and the three other checks is accepted. *)
Theorem verifyGroupMembership_not_required v mapClaims :
  AllowedGroups (config v) = [] ->
  verifyGroupMembership v mapClaims = None /\
  (forall tokenString now,
      parsed v tokenString now mapClaims ->
      verifyIssuer v mapClaims = None ->
      verifyAudience v mapClaims = None ->
      verifyExpiration v mapClaims now = None ->
      ValidateToken v tokenString now = (Some mapClaims, None)).
Proof.
  intros He.
  assert (Hg : verifyGroupMembership v mapClaims = None).
  { unfold verifyGroupMembership. by rewrite He. }
  split; [exact Hg |]. intros tokenString now Hp Hi Ha Hx.
  by rewrite (ValidateToken_parsed _ _ _ _ Hp), Hi, Ha, Hx, Hg.
Qed.

(** X5. A token that passed the parser, whose issuer is the configured one,
    whose audience (string or list) holds the configured audience, whose
    expiration is a number not before the clock reading, and which, when
    groups are required, shares a group with the allowed ones, is
    accepted, and the claims returned are the token's. *)
Theorem ValidateToken_accepts_valid_token v (tokenString : string) (now : Z)
    mapClaims (aud : value) (values : list string) (exp : Q) :
  parsed v tokenString now mapClaims ->
  mapClaims !! "iss" = Some (VString (IssuerURL (config v))) ->
  mapClaims !! "aud" = Some aud -> audience_claim aud values ->
  Audience (config v) ∈ values ->
  mapClaims !! "exp" = Some (VFloat64 exp) -> now <= int64_of_float64 exp ->
  (AllowedGroups (config v) = [] \/
   exists g groups x,
     mapClaims !! "groups" = Some g /\ groups_claim g groups /\
     x ∈ groups /\ x ∈ AllowedGroups (config v)) ->
  ValidateToken v tokenString now = (Some mapClaims, None).
Proof.
  intros Hp Hiss Haud Hc Hin Hexp Hnow Hgroups.
  rewrite (ValidateToken_parsed _ _ _ _ Hp).
  rewrite (verifyIssuer_match v mapClaims Hiss).
  assert (Ha : verifyAudience v mapClaims = None).
  { unfold verifyAudience. rewrite (extractAudiences_claim _ _ _ _ Haud Hc).
    apply range_audiences_elem_of in Hin. by rewrite Hin. }
  rewrite Ha, (proj2 (verifyExpiration_numeric v _ _ _ Hexp) Hnow).
  assert (Hg : verifyGroupMembership v mapClaims = None).
  { destruct Hgroups as [He|(g & groups & x & Hl & Hgc & Hx & Hall)].
    - unfold verifyGroupMembership. by rewrite He.
    - unfold verifyGroupMembership.
      destruct (AllowedGroups (config v)) as [|a allowed] eqn:Hal;
        [inversion Hall |].
      simpl. rewrite (extractUserGroups_claim _ _ _ _ Hl Hgc).
      assert (Hr : range_userGroups groups (a :: allowed) = true).
      { apply range_userGroups_shared. by exists x. }
      by rewrite Hr. }
  by rewrite Hg.
Qed.

(** X6. The key function returns a key exactly when the token is signed with
    an RSA method, its header names a key identifier as a string, and the
    key set holds under that identifier a JWK with a public key, which is
    the key returned; it never returns a key together with an error, nor
    neither of them. *)
Theorem getKeyFunc_resolves v (token : Token) :
  (forall key,
      getKeyFunc v token = (Some key, None) <->
      exists alg kid jwk,
        Method token = SigningMethodRSA alg /\
        Header token !! "kid" = Some (VString kid) /\
        jwks v !! kid = Some jwk /\ Key jwk = Some key) /\
  (forall key err,
      getKeyFunc v token = (key, err) ->
      (key = None /\ is_Some err) \/ (is_Some key /\ err = None)).
Proof.
  unfold getKeyFunc, KeyRead. split.
  - intros key. split.
    + destruct (Method token) as [alg| | | | |] eqn:Hm; try discriminate.
      destruct (Header token !! "kid") as [[| | |kid| | |]|] eqn:Hk; simpl;
        try discriminate.
      destruct (jwks v !! kid) as [jwk|] eqn:Hj; simpl; [|discriminate].
      destruct (Key jwk) as [k|] eqn:Hkey; [|discriminate].
      intros [= <-]. by exists alg, kid, jwk.
    + intros (alg & kid & jwk & -> & -> & Hj & Hkey). simpl.
      by rewrite Hj, Hkey.
  - intros key err.
    destruct (Method token); try (intros [= <- <-]; left; by eauto).
    destruct (assert_string (Header token !! "kid")) as [kid []]; simpl;
      [|intros [= <- <-]; left; by eauto].
    destruct (jwks v !! kid) as [jwk|]; simpl;
      [|intros [= <- <-]; left; by eauto].
    destruct (Key jwk); intros [= <- <-]; [right | left]; by eauto.
Qed.

(** X7. Key rotation: a token signed with an RSA method whose key identifier
    is not in the key set is refused by ValidateToken with the error of
    the key lookup, wrapped by the key function and by the parser,
    whatever its signature and its claims are. *)
Theorem ValidateToken_unknown_kid v (tokenString : string) (token : Token)
    (now : Z) (alg kid : string) :
  ParseUnverified tokenString = (token, None) ->
  Method token = SigningMethodRSA alg ->
  Header token !! "kid" = Some (VString kid) ->
  jwks v !! kid = None ->
  ValidateToken v tokenString now =
    (None,
     Some (Errorf_w "failed to parse token: "
             (newError "error while executing keyfunc" ErrTokenUnverifiable
                [Errorf_w ("failed to find key " +:+ kid +:+ " in JWKS: ")
                          (ErrKeyNotFound kid)]))).
Proof.
  intros Hu Hm Hk Hj.
  apply ValidateToken_parse_error with token.
  unfold jwt_Parse. rewrite Hu. unfold getKeyFunc, KeyRead.
  rewrite Hm, Hk. cbn [assert_string negb]. by rewrite Hj.
Qed.

(** X8. A token signed with an RSA method whose header has no key identifier,
    or one that is not a string, is refused with "token missing kid
    header" before the key set is read. *)
Theorem ValidateToken_missing_kid v (tokenString : string) (token : Token)
    (now : Z) (alg : string) :
  ParseUnverified tokenString = (token, None) ->
  Method token = SigningMethodRSA alg ->
  (forall kid, Header token !! "kid" <> Some (VString kid)) ->
  ValidateToken v tokenString now =
    (None,
     Some (Errorf_w "failed to parse token: "
             (newError "error while executing keyfunc" ErrTokenUnverifiable
                [errors_New "token missing kid header"]))).
Proof.
  intros Hu Hm Hk.
  apply ValidateToken_parse_error with token.
  unfold jwt_Parse. rewrite Hu. unfold getKeyFunc. rewrite Hm.
  destruct (Header token !! "kid") as [[| | |kid| | |]|]; try done.
  by destruct (Hk kid).
Qed.

End MoreValidatorProperties.

(** * Further properties of the configuration *)

Section StringFacts.

Lemma length_append (a b : string) :
  String.length (a +:+ b) = (String.length a + String.length b)%nat.
Proof. induction a as [|c a IH]; simpl; [done | by rewrite IH]. Qed.

Lemma substring_prefix (a b : string) :
  String.substring 0 (String.length a) (a +:+ b) = a.
Proof.
  induction a as [|c a IH]; simpl; [by destruct b | by rewrite IH].
Qed.

Lemma substring_whole (a : string) :
  String.substring 0 (String.length a) a = a.
Proof. induction a as [|c a IH]; simpl; [done | by rewrite IH]. Qed.

Lemma substring_suffix (a b : string) :
  String.substring (String.length a) (String.length b) (a +:+ b) = b.
Proof.
  induction a as [|c a IH]; simpl; [apply substring_whole | exact IH].
Qed.

Lemma HasSuffix_append (s suffix : string) : HasSuffix (s +:+ suffix) suffix = true.
Proof.
  unfold HasSuffix. rewrite length_append.
  replace (String.length s + String.length suffix - String.length suffix)%nat
    with (String.length s) by lia.
  rewrite substring_suffix, String.eqb_refl, andb_true_r.
  apply Nat.leb_le. lia.
Qed.

Lemma TrimSuffix_append (s suffix : string) : TrimSuffix (s +:+ suffix) suffix = s.
Proof.
  unfold TrimSuffix. rewrite HasSuffix_append, length_append.
  replace (String.length s + String.length suffix - String.length suffix)%nat
    with (String.length s) by lia.
  apply substring_prefix.
Qed.

Lemma TrimSuffix_none (s suffix : string) :
  HasSuffix s suffix = false -> TrimSuffix s suffix = s.
Proof. intros Hs. unfold TrimSuffix. by rewrite Hs. Qed.

Lemma Split_cut (s : string) (sep : ascii) :
  Split s sep =
    match cut s sep with
    | Some (before, after) => before :: Split after sep
    | None => [s]
    end.
Proof.
  induction s as [|c s IH]; simpl; [done |].
  destruct (Ascii.eqb c sep); [done |].
  rewrite IH. by destruct (cut s sep) as [[before after]|].
Qed.

Lemma cut_before (s : string) (sep : ascii) (before after : string) :
  cut s sep = Some (before, after) -> cut before sep = None.
Proof.
  revert before after. induction s as [|c s IH]; simpl; [discriminate |].
  intros before after. destruct (Ascii.eqb c sep) eqn:Hc.
  - by intros [= <- <-].
  - destruct (cut s sep) as [[b a]|]; [|discriminate].
    intros [= <- <-]. simpl. by rewrite Hc, (IH b a).
Qed.

End StringFacts.

Section MoreConfigurationProperties.

Context `{L : Library}.

Lemma range_groups_filter (groups allowed : list string) :
  range_groups groups allowed =
    (allowed ++ filter (fun g => g <> "") (TrimSpace <$> groups))%list.
Proof.
  revert allowed. induction groups as [|group rest IH]; intros allowed; csimpl.
  - by rewrite app_nil_r.
  - rewrite filter_cons.
    destruct (String.eqb_spec (TrimSpace group) "") as [He|Hne]; simpl.
    + rewrite decide_False by (intros Hn; by apply Hn). apply IH.
    + rewrite decide_True by done. rewrite IH. by rewrite <- app_assoc.
Qed.

(** X10. The allowed groups read from the environment are the pieces of
    OIDC_ALLOWED_GROUPS between commas, each with its surrounding space
    trimmed, in their order, without the pieces that are empty once
    trimmed; no allowed group is ever the empty string.  Issuer and
    audience are the values of their variables as they are. *)
Theorem LoadConfigFromEnv_groups (env : gmap string string) :
  let allowedGroupsStr := Getenv env "OIDC_ALLOWED_GROUPS" in
  (allowedGroupsStr <> "" ->
   AllowedGroups (LoadConfigFromEnv env) =
     filter (fun g => g <> "") (TrimSpace <$> Split allowedGroupsStr ",")) /\
  (forall g, g ∈ AllowedGroups (LoadConfigFromEnv env) -> g <> "") /\
  IssuerURL (LoadConfigFromEnv env) = Getenv env "OIDC_ISSUER_URL" /\
  Audience (LoadConfigFromEnv env) = Getenv env "OIDC_AUDIENCE".
Proof.
  intros str. subst str. unfold LoadConfigFromEnv. cbn [AllowedGroups IssuerURL Audience].
  destruct (String.eqb_spec (Getenv env "OIDC_ALLOWED_GROUPS") "") as [He|Hne];
    simpl.
  - split; [done | split; [|done]]. intros g Hin. inversion Hin.
  - rewrite range_groups_filter. simpl. split; [done | split; [|done]].
    intros g Hin. by apply list_elem_of_filter in Hin as [Hg _].
Qed.

(** X11. One trailing slash on the issuer URL does not change where the keys
    are fetched from: the validator built for an issuer URL with the slash
    holds the same key set as the one built for the URL without it. *)
Theorem NewValidator_trailing_slash (issuer audience : string)
    (groups : list string) :
  HasSuffix issuer "/" = false ->
  jwks (fst (NewValidator {| IssuerURL := issuer +:+ "/"; Audience := audience;
                             AllowedGroups := groups |})) =
  jwks (fst (NewValidator {| IssuerURL := issuer; Audience := audience;
                             AllowedGroups := groups |})).
Proof.
  intros Hs. unfold NewValidator. cbn [IssuerURL].
  rewrite TrimSuffix_append, (TrimSuffix_none _ _ Hs).
  by destruct (NewStorageFromHTTP (issuer +:+ "/.well-known/jwks.json"))
    as [storage [e|]].
Qed.

(** X12. The server command gets as far as building the validator exactly when
    the issuer URL, the audience and the two Cloudflare variables are all
    set to non-empty values and the logger can be created; the validator
    is then configured with that issuer and that audience. *)
Theorem serverCmd_Run_starts (env : gmap string string) :
  ((exists v logged, serverCmd_Run env = Started v logged) <->
   Getenv env "OIDC_ISSUER_URL" <> "" /\ Getenv env "OIDC_AUDIENCE" <> "" /\
   Getenv env "CLOUDFLARE_API_TOKEN" <> "" /\
   Getenv env "CLOUDFLARE_ZONE_ID" <> "" /\ NewProduction = None) /\
  (forall v logged,
      serverCmd_Run env = Started v logged ->
      IssuerURL (config v) = Getenv env "OIDC_ISSUER_URL" /\
      Audience (config v) = Getenv env "OIDC_AUDIENCE").
Proof.
  split.
  - unfold serverCmd_Run.
    replace (IssuerURL (LoadConfigFromEnv env)) with (Getenv env "OIDC_ISSUER_URL")
      by reflexivity.
    replace (Audience (LoadConfigFromEnv env)) with (Getenv env "OIDC_AUDIENCE")
      by reflexivity.
    destruct (String.eqb_spec (Getenv env "OIDC_ISSUER_URL") "") as [H1|H1].
    { split; [by intros (v & logged & [=]) | by intros (Hn & _)]. }
    destruct (String.eqb_spec (Getenv env "OIDC_AUDIENCE") "") as [H2|H2].
    { split; [by intros (v & logged & [=]) | by intros (_ & Hn & _)]. }
    destruct (String.eqb_spec (Getenv env "CLOUDFLARE_API_TOKEN") "") as [H3|H3].
    { split; [by intros (v & logged & [=]) | by intros (_ & _ & Hn & _)]. }
    destruct (String.eqb_spec (Getenv env "CLOUDFLARE_ZONE_ID") "") as [H4|H4].
    { split; [by intros (v & logged & [=]) | by intros (_ & _ & _ & Hn & _)]. }
    destruct NewProduction as [e|].
    { split; [by intros (v & logged & [=]) | by intros (_ & _ & _ & _ & [=])]. }
    split; [done |]. intros _.
    match goal with
    | |- context [NewValidator ?c] => destruct (NewValidator c) as [v logged]
    end.
    by exists v, logged.
  - intros v logged Hrun. by rewrite (serverCmd_Run_config _ _ _ Hrun).
Qed.

End MoreConfigurationProperties.

(** X25. The short name of a node has no dot, is the part of the name before
    its first dot (the whole name when there is none), and is its own
    short name. *)
Theorem stripDomainSuffix_short (name : string) :
  let shortName := K8sctl.stripDomainSuffix name in
  cut shortName "." = None /\
  (name = shortName \/ exists rest, name = shortName +:+ "." +:+ rest) /\
  K8sctl.stripDomainSuffix shortName = shortName.
Proof.
  unfold K8sctl.stripDomainSuffix. rewrite Split_cut.
  destruct (cut name ".") as [[before after]|] eqn:Hc; simpl.
  - pose proof (cut_before _ _ _ _ Hc) as Hb.
    split; [exact Hb | split].
    + right. exists after. by apply cut_Some in Hc.
    + by rewrite Split_cut, Hb.
  - split; [exact Hc | split; [by left |]]. by rewrite Split_cut, Hc.
Qed.

(** * Further properties of the middleware *)

Section MoreMiddlewareProperties.

Context `{L : Library}.

Implicit Types (v : Validator) (ctx : Context).

(** The request carries a bearer header whose token the validator accepts
    at clock reading [now]. *)
Local Abbreviation accepted v now ctx :=
  (exists scheme token,
      SplitN (GetHeader ctx "Authorization") " " 2 = [scheme; token] /\
      ToLower scheme = "bearer" /\
      snd (ValidateToken v token now) = None).

(** The two ways the handler ends. *)
Lemma Middleware_cases v (now : Z) ctx :
  let r := Middleware v now ctx in
  (accepted v now ctx /\
   aborted (fst r) = aborted ctx /\ response (fst r) = response ctx /\
   CallNext ∈ snd r)
  \/ (~ accepted v now ctx /\
      aborted (fst r) = true /\ Keys (fst r) = Keys ctx /\
      (exists obj, response (fst r) = Some (401, obj)) /\
      CallNext ∉ snd r).
Proof.
  intros r. subst r.
  destruct (String.eqb_spec (GetHeader ctx "Authorization") "") as [Hh|Hne].
  { right. rewrite (Middleware_missing _ _ _ Hh).
    cbn [fst snd aborted response Keys AbortWithStatusJSON].
    split; [|split; [done | split; [done | split; [by eexists |]]]].
    - intros (scheme & token & Hs & _). rewrite Hh in Hs. discriminate.
    - intros Hin. inversion Hin. }
  destruct (bearer_form_dec (GetHeader ctx "Authorization")) as [Hb|Hnb].
  - apply bearer_form_SplitN in Hb as (scheme & token & Hs & Hl).
    rewrite (Middleware_bearer _ _ _ _ _ Hs Hl).
    destruct (ValidateToken v token now) as [claims [e|]] eqn:Hv;
      cbn [fst snd aborted response Keys AbortWithStatusJSON].
    + right. split; [|split; [done | split; [done | split; [by eexists |]]]].
      * intros (scheme' & token' & Hs' & _ & Hok).
        rewrite Hs in Hs'. injection Hs' as <- <-. rewrite Hv in Hok.
        discriminate.
      * intros Hin. repeat (apply elem_of_cons in Hin as [Hin|Hin]; [done |]).
        inversion Hin.
    + left. split; [|split; [|split]].
      * exists scheme, token. by rewrite Hv.
      * by rewrite !(proj1 (set_if_string_flags _ _ _ _)).
      * by rewrite !(proj2 (set_if_string_flags _ _ _ _)).
      * do 2 right. left.
  - right. rewrite (Middleware_malformed _ _ _ Hne Hnb).
    cbn [fst snd aborted response Keys AbortWithStatusJSON].
    split; [|split; [done | split; [done | split; [by eexists |]]]].
    + intros (scheme & token & Hs & Hl & _). apply Hnb.
      apply bearer_form_SplitN. by exists scheme, token.
    + intros Hin. inversion Hin.
Qed.

(** X13. The middleware lets a request through to the next handler exactly
    when its Authorization header has the bearer form and ValidateToken
    accepts the token; every other request is aborted with status 401, and
    nothing is stored in its context. *)
Theorem Middleware_next_iff_accepted v (now : Z) ctx :
  let r := Middleware v now ctx in
  (CallNext ∈ snd r <-> accepted v now ctx) /\
  (CallNext ∉ snd r ->
   aborted (fst r) = true /\ Keys (fst r) = Keys ctx /\
   exists obj, response (fst r) = Some (401, obj)).
Proof.
  intros r. subst r.
  destruct (Middleware_cases v now ctx)
    as [(Hacc & _ & _ & Hin)|(Hnacc & Hab & Hk & Hr & Hnin)].
  - split; [done |]. by intros Hn.
  - split; [split; [done | by intros Ha] | done].
Qed.

(** X14. After an accepted token the context holds the validated claims under
    oidc_claims, the email claim under user_email and the subject under
    user_id when these claims are strings (an entry already there is kept
    otherwise); every other entry of the context and the request itself
    are left as they were. *)
Theorem Middleware_attaches_identity v (now : Z) ctx (scheme token : string)
    (mapClaims : gmap string value) :
  SplitN (GetHeader ctx "Authorization") " " 2 = [scheme; token] ->
  ToLower scheme = "bearer" ->
  ValidateToken v token now = (Some mapClaims, None) ->
  let ctx' := fst (Middleware v now ctx) in
  Keys ctx' !! "oidc_claims" = Some (StoredClaims mapClaims) /\
  Keys ctx' !! "user_email" =
    (if snd (assert_string (mapClaims !! "email"))
     then Some (StoredString (fst (assert_string (mapClaims !! "email"))))
     else Keys ctx !! "user_email") /\
  Keys ctx' !! "user_id" =
    (if snd (assert_string (mapClaims !! "sub"))
     then Some (StoredString (fst (assert_string (mapClaims !! "sub"))))
     else Keys ctx !! "user_id") /\
  (forall key, key <> "oidc_claims" -> key <> "user_email" -> key <> "user_id" ->
     Keys ctx' !! key = Keys ctx !! key) /\
  CtxRequest ctx' = CtxRequest ctx.
Proof.
  intros Hs Hl Hv ctx'. subst ctx'.
  rewrite (Middleware_bearer _ _ _ _ _ Hs Hl), Hv. simpl.
  unfold set_if_string, CtxSet.
  destruct (assert_string (mapClaims !! "email")) as [email []];
    destruct (assert_string (mapClaims !! "sub")) as [sub []]; simpl;
    (split; [|split; [|split; [|split; [|done]]]]);
    try (intros key H1 H2 H3);
    rewrite ?lookup_insert_eq, ?lookup_insert_ne by done;
    rewrite ?lookup_insert_eq, ?lookup_insert_ne by done;
    rewrite ?lookup_insert_eq, ?lookup_insert_ne by done;
    done.
Qed.

(** X15. The token the client puts into the Authorization header is the token
    the validator is given: whatever the token string is, a request
    carrying the header that makeAuthenticatedRequest builds passes the
    header gate and ValidateToken is called on exactly that string. *)
Theorem bearer_header_round_trip v (now : Z) ctx
    (method urlStr body token : string) :
  RequestHeader (CtxRequest ctx) !! "Authorization" =
    ReqHeader (authenticatedRequest method urlStr body token) !! "Authorization" ->
  exists rest, snd (Middleware v now ctx) = CallValidateToken token :: rest.
Proof.
  intros Hh. unfold authenticatedRequest in Hh. cbn [ReqHeader] in Hh.
  rewrite lookup_insert_ne, lookup_insert_eq in Hh by done.
  assert (Hs : SplitN (GetHeader ctx "Authorization") " " 2 = ["Bearer"; token]).
  { assert (Hg : GetHeader ctx "Authorization" = "Bearer" +:+ String " " token)
      by (unfold GetHeader; rewrite Hh; reflexivity).
    rewrite Hg, SplitN_2. by rewrite cut_app. }
  rewrite (Middleware_bearer _ _ _ _ _ Hs eq_refl).
  destruct (ValidateToken v token now) as [claims [e|]]; by eexists.
Qed.

(** X16. The route POST /v1/auth-check, on a fresh request: the answer is
    status 200 with status "authenticated" exactly when the request
    carries a bearer token that ValidateToken accepts; every other request
    is answered with status 401 and never reaches the handler. *)
Theorem v1_auth_check_authenticated v (now : Z) ctx :
  aborted ctx = false ->
  let r := K8sctl.v1_auth_check v now ctx in
  let ok :=
    <[ "status" := VString "authenticated" ]>
    (<[ "message" := VString "Authentication successful" ]> ∅) in
  (accepted v now ctx -> response (fst r) = Some (200, ok)) /\
  (~ accepted v now ctx ->
   aborted (fst r) = true /\ exists obj, response (fst r) = Some (401, obj)) /\
  (forall obj, response (fst r) = Some (200, obj) -> accepted v now ctx).
Proof.
  intros Hfresh r ok. subst r. unfold K8sctl.v1_auth_check.
  destruct (Middleware_cases v now ctx)
    as [(Hacc & Hab & _ & _)|(Hnacc & Hab & _ & (obj & Hr) & _)];
    destruct (Middleware v now ctx) as [ctx1 events]; simpl in *.
  - rewrite Hab, Hfresh. simpl. split; [done | split; [done | done]].
  - rewrite Hab. simpl. split; [done | split; [by eauto |]].
    intros obj'. rewrite Hr. intros [=].
Qed.

End MoreMiddlewareProperties.

(** * Further properties of the client *)

Section MoreClientProperties.

Context `{C : Client} `{S : Sender}.

(** X17. An answer of the identity provider with a status other than 200 makes
    the exchange fail with "SSH authentication failed (<status>): <body>",
    the body being the provider's; no token comes out of it, and
    getOIDCToken returns that error, wrapped, with an empty token. *)
Theorem exchangeJWTForOIDC_rejected (config : KubectlConfig) (sshJWT : string)
    (resp : HTTPResponse) (body : string) :
  NewRequestWithContext "POST" (TrimSuffix (DexURL config) "/" +:+ "/token") = None ->
  (forall req, Do req = (resp, None)) ->
  Body resp = (body, None) ->
  StatusCode resp <> 200 ->
  let rejected :=
    errors_New ("SSH authentication failed (" +:+ Itoa (StatusCode resp)
                +:+ "): " +:+ body) in
  exchangeJWTForOIDC config sshJWT = (None, Some rejected) /\
  (forall flags env cachedConfig,
      oidcClientConfig flags env cachedConfig = config ->
      CreateSSHSignedJWT config = (sshJWT, None) ->
      getOIDCToken flags env cachedConfig =
        ("", Some (Errorf_w "failed to exchange JWT with Dex: " rejected))).
Proof.
  intros Hreq Hdo Hbody Hstatus rejected.
  assert (Hx : exchangeJWTForOIDC config sshJWT = (None, Some rejected)).
  { unfold exchangeJWTForOIDC. rewrite Hreq, Hdo, Hbody.
    unfold StatusOK. by destruct (Z.eqb_spec (StatusCode resp) 200). }
  split; [exact Hx |]. intros flags env cachedConfig Hc Hs.
  unfold getOIDCToken. by rewrite Hc, Hs, Hx.
Qed.

(** X18. The configuration getOIDCToken builds is always complete: the target
    audience, the client identifier and the client secret are never empty,
    so that the exchange always sends an audience and a client secret; the
    list of key paths is nil; and when a Dex URL is given by flag or
    environment, it is both the URL of the provider and the audience of
    the SSH-signed assertion. *)
Theorem oidcClientConfig_complete (flags : Flags) (env : gmap string string)
    (cachedConfig : option Config.Config) :
  let config := oidcClientConfig flags env cachedConfig in
  TargetAudience config <> "" /\ ClientID config <> "" /\
  ClientSecret config <> "" /\ SSHKeyPaths config = [] /\
  (getConfigValue env (dexURL flags) "DEX_URL" <> "" ->
   DexURL config = getConfigValue env (dexURL flags) "DEX_URL" /\
   DexInstanceID config = DexURL config).
Proof.
  intros config. subst config. unfold oidcClientConfig.
  cbn [TargetAudience ClientID ClientSecret SSHKeyPaths DexURL DexInstanceID].
  split; [|split; [|split; [|split; [done |]]]].
  - destruct (String.eqb_spec (Getenv env "K8SCTL_AUDIENCE") ""); simpl;
      [|done].
    by destruct (String.eqb_spec (cluster flags) "").
  - by destruct (String.eqb_spec (getConfigValue env (clientID flags)
                                    "K8SCTL_CLIENT_ID") "").
  - by destruct (String.eqb_spec (getConfigValue env (clientSecret flags)
                                    "K8SCTL_CLIENT_SECRET") "").
  - by destruct (String.eqb_spec (getConfigValue env (dexURL flags) "DEX_URL") "").
Qed.

(** X19. When neither K8SCTL_AUDIENCE nor K8SCTL_SERVER_URL is set, a cluster
    is named and the configuration file gives no server URL for it, the
    server the client talks to and the audience it asks the token for are
    the same URL. *)
Theorem getServerBaseURL_is_target_audience (flags : Flags)
    (env : gmap string string) (cachedConfig : option Config.Config) :
  cluster flags <> "" ->
  Getenv env "K8SCTL_AUDIENCE" = "" ->
  Getenv env "K8SCTL_SERVER_URL" = "" ->
  (forall cfg, loadConfig env cachedConfig = (cfg, None) ->
     Config.GetClusterServerURL cfg (cluster flags) = "") ->
  getServerBaseURL env cachedConfig (cluster flags) =
    TargetAudience (oidcClientConfig flags env cachedConfig).
Proof.
  intros Hc Ha Hs Hurl. unfold getServerBaseURL, oidcClientConfig.
  cbn [TargetAudience]. rewrite Ha, Hs. simpl.
  destruct (String.eqb_spec (cluster flags) ""); [done |]. simpl.
  destruct (loadConfig env cachedConfig) as [cfg [e|]] eqn:Hl; [done |].
  by rewrite (Hurl cfg eq_refl).
Qed.

(** X20. K8SCTL_SERVER_URL, when set, is the server URL whatever the cluster
    and the configuration file are, with one trailing slash removed. *)
Theorem getServerBaseURL_override (env : gmap string string)
    (cachedConfig : option Config.Config) (clusterName : string) :
  (forall url, Getenv env "K8SCTL_SERVER_URL" = url +:+ "/" ->
     getServerBaseURL env cachedConfig clusterName = url) /\
  (forall url, Getenv env "K8SCTL_SERVER_URL" = url -> url <> "" ->
     HasSuffix url "/" = false ->
     getServerBaseURL env cachedConfig clusterName = url).
Proof.
  split.
  - intros url He. unfold getServerBaseURL. rewrite He.
    replace (negb (String.eqb (url +:+ "/") "")) with true
      by (by destruct url).
    apply TrimSuffix_append.
  - intros url He Hne Hs. unfold getServerBaseURL. rewrite He.
    destruct (String.eqb_spec url ""); [done |]. by apply TrimSuffix_none.
Qed.

Lemma makeAuthenticatedRequest_nil (timeout : Z) (method urlStr body token : string) :
  makeAuthenticatedRequest timeout method urlStr body token <> (None, None).
Proof.
  unfold makeAuthenticatedRequest.
  destruct (NewRequestWithContext method urlStr); [done |].
  by destruct (DoWithTimeout _ _).
Qed.

(** X21. The auth-check command ends with exit status 0 exactly when a token
    was obtained, the request to <server>/<version>/auth-check carrying it
    got an answer, the body of the answer could be read and its status is
    200; in every other case it ends with log.Fatalf. *)
Theorem authCheckCmd_Run_succeeds (flags : Flags) (opts : Options)
    (env : gmap string string) (cachedConfig : option Config.Config) :
  (exists stdout, authCheckCmd_Run flags opts env cachedConfig = Exit0 stdout) <->
  exists token resp body,
    getOIDCToken flags env cachedConfig = (token, None) /\
    makeAuthenticatedRequest (timeoutSeconds opts) "POST"
      (getServerBaseURL env cachedConfig (cluster flags) +:+ "/"
       +:+ apiVersion opts +:+ "/auth-check") "" token = (Some resp, None) /\
    Body resp = (body, None) /\ StatusCode resp = 200.
Proof.
  unfold authCheckCmd_Run.
  destruct (getOIDCToken flags env cachedConfig) as [token [e|]].
  { split; [by intros (out & [=]) | by intros (t & r & b & [=] & _)]. }
  cbv zeta.
  match goal with
  | |- context [makeAuthenticatedRequest ?t ?m ?u ?b ?k] =>
      pose proof (makeAuthenticatedRequest_nil t m u b k) as Hnil;
      destruct (makeAuthenticatedRequest t m u b k) as [resp [e|]] eqn:Hm
  end.
  { split; [by intros (out & [=]) |].
    intros (t & r & b & [= <-] & Hm' & _). rewrite Hm in Hm'. discriminate. }
  destruct resp as [resp|]; [|done]. simpl.
  destruct (Body resp) as [body [e|]] eqn:Hb; simpl.
  { split; [by intros (out & [=]) |].
    intros (t & r & b & [= <-] & Hm' & Hb' & _).
    rewrite Hm in Hm'. injection Hm' as <-. rewrite Hb in Hb'. discriminate. }
  unfold StatusOK. destruct (Z.eqb_spec (StatusCode resp) 200) as [Hs|Hs].
  - split; [|by eexists]. intros _. by exists token, resp, body.
  - split; [by intros (out & [=]) |].
    intros (t & r & b & [= <-] & Hm' & _ & Hs').
    rewrite Hm in Hm'. injection Hm' as <-. done.
Qed.

End MoreClientProperties.

(** * Further properties of the configuration file *)

Section MoreFileProperties.

Context `{F : Config.FileSystem}.

Lemma LoadDefault_unreadable (env : gmap string string) (data : string) (e : error) :
  Getenv env "K8SCTL_CONFIG" <> "" ->
  Config.ReadFile (Getenv env "K8SCTL_CONFIG") = (data, Some e) ->
  Config.LoadDefault env =
    (None, Some (Errorf_w ("failed to read config file "
                           +:+ Getenv env "K8SCTL_CONFIG" +:+ ": ") e)).
Proof.
  intros Hne Hr. unfold Config.LoadDefault.
  destruct (String.eqb_spec (Getenv env "K8SCTL_CONFIG") ""); [done |].
  simpl. unfold Config.Load. by rewrite Hr.
Qed.

Lemma LoadDefault_no_file (env : gmap string string) :
  Getenv env "K8SCTL_CONFIG" = "" ->
  (forall path, is_Some (Config.Stat path)) ->
  Config.LoadDefault env =
    (Some {| Config.Clusters := ∅; Config.DefaultEnvironment := "dev" |}, None).
Proof.
  intros He Hs. unfold Config.LoadDefault. rewrite He. simpl.
  destruct (Hs "./k8sctl.yaml") as [e1 ->].
  destruct (Hs (Config.Join [Getenv env "HOME"; ".config"; "k8sctl"; "config.yaml"]))
    as [e2 ->].
  by destruct (Hs "/etc/k8sctl/config.yaml") as [e3 ->].
Qed.

(** X22. How the configuration file is looked for.  A path given by
    K8SCTL_CONFIG is the only one tried: when it cannot be read the result
    is the error, without a configuration, whatever the default locations
    hold.  Without it, a file ./k8sctl.yaml that exists is loaded, also
    when loading it fails; and when no file exists at any location the
    result is the built-in configuration, with default environment dev and
    no cluster, and no error. *)
Theorem LoadDefault_search_order (env : gmap string string) :
  let configPath := Getenv env "K8SCTL_CONFIG" in
  (forall data e, configPath <> "" -> Config.ReadFile configPath = (data, Some e) ->
     Config.LoadDefault env =
       (None, Some (Errorf_w ("failed to read config file " +:+ configPath +:+ ": ") e))) /\
  (configPath = "" -> Config.Stat "./k8sctl.yaml" = None ->
   Config.LoadDefault env = Config.Load "./k8sctl.yaml") /\
  (configPath = "" -> (forall path, is_Some (Config.Stat path)) ->
   Config.LoadDefault env =
     (Some {| Config.Clusters := ∅; Config.DefaultEnvironment := "dev" |}, None)).
Proof.
  intros configPath. subst configPath. split; [|split].
  - intros data e Hne Hr. by apply LoadDefault_unreadable with data.
  - intros He Hs. unfold Config.LoadDefault. rewrite He. simpl. by rewrite Hs.
  - apply LoadDefault_no_file.
Qed.

(** X23. Without a configuration file and without K8SCTL_CLUSTER_SUFFIX every
    cluster name resolves to the environment dev, so that the server URL
    and the target audience are https://k8sctl-dev.example.com for every
    cluster. *)
Theorem getClusterSuffix_default_dev `{C : Client} (env : gmap string string)
    (clusterName : string) :
  (forall env, LoadDefault env =
     (default {| Config.Clusters := ∅; Config.DefaultEnvironment := "" |}
              (fst (Config.LoadDefault env)),
      snd (Config.LoadDefault env))) ->
  Getenv env "K8SCTL_CONFIG" = "" ->
  Getenv env "K8SCTL_CLUSTER_SUFFIX" = "" ->
  (forall path, is_Some (Config.Stat path)) ->
  getClusterSuffix env None clusterName = "dev" /\
  (Getenv env "K8SCTL_SERVER_URL" = "" ->
   getServerBaseURL env None clusterName = "https://k8sctl-dev.example.com").
Proof.
  intros Hlink Hc Hsfx Hnone.
  pose proof (LoadDefault_no_file env Hc Hnone) as Hdef.
  assert (Hl : loadConfig env None =
               ({| Config.Clusters := ∅; Config.DefaultEnvironment := "dev" |}, None)).
  { unfold loadConfig. by rewrite Hlink, Hdef. }
  assert (Hs : getClusterSuffix env None clusterName = "dev").
  { unfold getClusterSuffix. rewrite Hsfx, Hl. simpl.
    unfold Config.GetClusterEnvironment. simpl. by rewrite lookup_empty. }
  split; [exact Hs |]. intros Hu.
  unfold getServerBaseURL. rewrite Hu, Hs, Hl. simpl.
  unfold Config.GetClusterServerURL. simpl. by rewrite lookup_empty.
Qed.

End MoreFileProperties.

(** * Further properties of expiration and of a broken configuration *)

(** X9. For an expiration that is not negative and whose whole seconds
    are an int64, the check compares the clock with the expiration as a
    number: it passes exactly when the clock reading, in whole seconds, is
    not after the expiration, fractions of a second included.  For an
    expiration beyond the int64 range the check compares the clock with
    what the implementation's conversion gives. *)
Theorem verifyExpiration_fraction `{L : Library} (v : Validator)
    (mapClaims : gmap string value) (now : Z) (exp : Q) :
  mapClaims !! "exp" = Some (VFloat64 exp) ->
  0 <= Qnum exp ->
  (Qnum exp < (MaxInt64 + 1) * Z.pos (Qden exp) ->
   verifyExpiration v mapClaims now = None <-> now * Z.pos (Qden exp) <= Qnum exp) /\
  ((MaxInt64 + 1) * Z.pos (Qden exp) <= Qnum exp ->
   verifyExpiration v mapClaims now = None <-> now <= int64_overflow exp).
Proof.
  intros Hx Hnn. rewrite (verifyExpiration_numeric v _ _ _ Hx).
  assert (Ht : truncate exp = Qnum exp / Z.pos (Qden exp)).
  { unfold truncate. by rewrite Z.quot_div_nonneg by lia. }
  split.
  - intros Hr.
    assert (H0 : 0 <= truncate exp) by (rewrite Ht; apply Z.div_pos; lia).
    assert (H1 : truncate exp < MaxInt64 + 1)
      by (rewrite Ht; apply Z.div_lt_upper_bound; lia).
    rewrite int64_of_float64_in_range by (unfold MinInt64, MaxInt64 in *; lia).
    rewrite Ht. split.
    + intros Hle.
      pose proof (Z.mul_div_le (Qnum exp) (Z.pos (Qden exp)) ltac:(lia)).
      nia.
    + intros Hle. apply Z.div_le_lower_bound; lia.
  - intros Hr.
    assert (H1 : MaxInt64 + 1 <= truncate exp)
      by (rewrite Ht; apply Z.div_le_lower_bound; lia).
    unfold int64_of_float64, float64_to_int64. cbv zeta.
    destruct (Z.leb_spec (truncate exp) MaxInt64); [lia |].
    by rewrite andb_false_r.
Qed.

(** X24. A configuration file named by K8SCTL_CONFIG that cannot be read is
    not reported by the client: without K8SCTL_CLUSTER_SUFFIX the
    environment suffix of a cluster is then the cluster name itself. *)
Theorem getClusterSuffix_unreadable_config `{F : Config.FileSystem} `{C : Client}
    (env : gmap string string) (clusterName data : string) (e : error) :
  (forall env, LoadDefault env =
     (default {| Config.Clusters := ∅; Config.DefaultEnvironment := "" |}
              (fst (Config.LoadDefault env)),
      snd (Config.LoadDefault env))) ->
  Getenv env "K8SCTL_CONFIG" <> "" ->
  Config.ReadFile (Getenv env "K8SCTL_CONFIG") = (data, Some e) ->
  Getenv env "K8SCTL_CLUSTER_SUFFIX" = "" ->
  getClusterSuffix env None clusterName = clusterName.
Proof.
  intros Hlink Hc Hr Hsfx.
  pose proof (LoadDefault_unreadable env data e Hc Hr) as Hbad.
  unfold getClusterSuffix, loadConfig. by rewrite Hsfx, Hlink, Hbad.
Qed.

(** * The further properties on the concrete instance *)

(** The group engineering given as a plain string is refused although it
    is the allowed group. *)
Lemma verifyGroupMembership_type_witness :
  verifyGroupMembership (L := up) validator claims_group_string
    = Some (errors_New "invalid groups claim type").
Proof.
  refine (verifyGroupMembership_type (L := up) validator claims_group_string
            (VString "engineering") _ _ _ _); try discriminate.
  vm_compute. reflexivity.
Defined.

(** Without allowed groups a token without groups claim is accepted. *)
Lemma verifyGroupMembership_not_required_witness :
  verifyGroupMembership (L := up)
    {| config := {| IssuerURL := issuer; Audience := audience; AllowedGroups := [] |};
       jwks := jwks (L := up) validator |}
    claims_no_exp = None.
Proof.
  exact (proj1 (verifyGroupMembership_not_required (L := up)
                  {| config := {| IssuerURL := issuer; Audience := audience;
                                  AllowedGroups := [] |};
                     jwks := jwks (L := up) validator |}
                  claims_no_exp eq_refl)).
Defined.

Lemma ValidateToken_accepts_valid_token_witness :
  ValidateToken (L := up) validator "good" 1000 = (Some claims_good, None).
Proof.
  refine (ValidateToken_accepts_valid_token (L := up) validator "good" 1000
            claims_good (VSlice (VString <$> [other; audience])) [other; audience]
            (Qmake 1600 1) _ _ _ (audience_list _) _ _ _ _).
  - eexists. split; vm_compute; reflexivity.
  - vm_compute; reflexivity.
  - vm_compute; reflexivity.
  - right. left.
  - vm_compute; reflexivity.
  - vm_compute. discriminate.
  - right. exists (VSlice (VString <$> ["engineering"; "sre"])),
      ["engineering"; "sre"], "engineering".
    split; [vm_compute; reflexivity | split; [apply groups_decoded |]].
    split; left.
Defined.

(** The token signed with key k1 against a key set that no longer has
    it. *)
Lemma ValidateToken_unknown_kid_witness :
  exists err,
    ValidateToken (L := up) {| config := cfg; jwks := ∅ |} "good" 1000
      = (None, Some err) /\
    Error err =
      "failed to parse token: token is unverifiable: error while executing keyfunc: failed to find key k1 in JWKS: key not found: kid k1".
Proof.
  eexists. split.
  - refine (ValidateToken_unknown_kid (L := up) {| config := cfg; jwks := ∅ |}
              "good" (rs256 claims_good) 1000 "RS256" "k1" _ _ _ _);
      vm_compute; reflexivity.
  - vm_compute. reflexivity.
Defined.

Lemma ValidateToken_missing_kid_witness :
  exists err,
    ValidateToken (L := up_no_kid)
      (@Build_Validator up_no_kid cfg
         (key_set : gmap string (JWK (@CryptoKey up_no_kid)))) "no-kid" 1000
      = (None, Some err) /\
    Error err =
      "failed to parse token: token is unverifiable: error while executing keyfunc: token missing kid header".
Proof.
  eexists. split.
  - refine (ValidateToken_missing_kid (L := up_no_kid)
              (@Build_Validator up_no_kid cfg
                 (key_set : gmap string (JWK (@CryptoKey up_no_kid))))
              "no-kid" (rs256_no_kid claims_good) 1000 "RS256" _ _ _).
    + vm_compute; reflexivity.
    + reflexivity.
    + intros kid Hk. vm_compute in Hk. discriminate.
  - vm_compute. reflexivity.
Defined.

Lemma NewValidator_trailing_slash_witness :
  jwks (fst (NewValidator (L := up)
               {| IssuerURL := issuer +:+ "/"; Audience := audience;
                  AllowedGroups := ["engineering"] |}))
  = jwks (fst (NewValidator (L := up) cfg)).
Proof.
  exact (NewValidator_trailing_slash (L := up) issuer audience ["engineering"]
           eq_refl).
Defined.

Lemma Middleware_attaches_identity_witness :
  Keys (fst (Middleware (L := up) validator 1000 (request (Some "Bearer good"))))
    !! "user_id" = Some (StoredString "alice").
Proof.
  assert (Hv : ValidateToken (L := up) validator "good" 1000
               = (Some claims_good, None)) by (vm_compute; reflexivity).
  destruct (Middleware_attaches_identity (L := up) validator 1000
              (request (Some "Bearer good")) "Bearer" "good" claims_good
              eq_refl eq_refl Hv) as (_ & _ & Hid & _).
  rewrite Hid. vm_compute. reflexivity.
Defined.

Lemma bearer_header_round_trip_witness :
  exists rest,
    snd (Middleware (L := up) validator 1000 (request (Some "Bearer a b")))
      = CallValidateToken "a b" :: rest.
Proof.
  refine (bearer_header_round_trip (L := up) validator 1000
            (request (Some "Bearer a b")) "POST" "https://svc.example.com/v1/auth-check"
            "" "a b" _).
  vm_compute. reflexivity.
Defined.

Lemma v1_auth_check_authenticated_witness :
  response (fst (K8sctl.v1_auth_check (L := up) validator 1000
                   (request (Some "Bearer good"))))
  = Some (200, <[ "status" := VString "authenticated" ]>
               (<[ "message" := VString "Authentication successful" ]> ∅)).
Proof.
  destruct (v1_auth_check_authenticated (L := up) validator 1000
              (request (Some "Bearer good")) eq_refl) as (Hok & _).
  apply Hok. exists "Bearer", "good".
  split; [reflexivity | split; [reflexivity | vm_compute; reflexivity]].
Defined.

(** The scenario of the specification: the provider answers the exchange
    with status 400 and an error body. *)
Lemma exchangeJWTForOIDC_rejected_witness :
  fst (getOIDCToken (C := provider no_file 400 "{error:invalid_grant}") flags ∅ None)
    = "" /\
  (Error <$> snd (getOIDCToken (C := provider no_file 400 "{error:invalid_grant}")
                    flags ∅ None))
    = Some "failed to exchange JWT with Dex: SSH authentication failed (400): {error:invalid_grant}".
Proof.
  destruct (exchangeJWTForOIDC_rejected
              (C := provider no_file 400 "{error:invalid_grant}")
              (oidcClientConfig (C := provider no_file 400 "{error:invalid_grant}")
                 flags ∅ None)
              "ssh-jwt-for-alice"
              {| StatusCode := 400; Body := ("{error:invalid_grant}", None) |}
              "{error:invalid_grant}"
              eq_refl (fun _ => eq_refl) eq_refl)
    as (_ & Hget); [discriminate |].
  rewrite (Hget flags ∅ None eq_refl eq_refl). split; reflexivity.
Defined.

Lemma getServerBaseURL_is_target_audience_witness :
  getServerBaseURL (C := client {| IDToken := "id"; AccessToken := "" |}) ∅ None "cluster1"
    = "https://k8sctl-dev.example.com" /\
  TargetAudience (oidcClientConfig (C := client {| IDToken := "id"; AccessToken := "" |})
                    flags ∅ None)
    = "https://k8sctl-dev.example.com".
Proof.
  pose proof (getServerBaseURL_is_target_audience
                (C := client {| IDToken := "id"; AccessToken := "" |})
                flags ∅ None) as H.
  assert (Ht : TargetAudience
                 (oidcClientConfig (C := client {| IDToken := "id"; AccessToken := "" |})
                    flags ∅ None) = "https://k8sctl-dev.example.com")
    by (vm_compute; reflexivity).
  split; [|exact Ht]. rewrite <- Ht. apply H.
  - discriminate.
  - reflexivity.
  - reflexivity.
  - intros cfg0 [= <-]. reflexivity.
Defined.

Lemma getClusterSuffix_default_dev_witness :
  getClusterSuffix (C := provider no_file 200 "{}") ∅ None "prod-us" = "dev".
Proof.
  refine (proj1 (getClusterSuffix_default_dev (F := no_file)
                   (C := provider no_file 200 "{}") ∅ "prod-us" _ _ _ _)).
  - intros env. reflexivity.
  - reflexivity.
  - reflexivity.
  - intros path. by eexists.
Defined.

(** The group list of the environment, cut at the commas and trimmed. *)
Example LoadConfigFromEnv_example :
  AllowedGroups (LoadConfigFromEnv (L := up)
                   (<[ "OIDC_ALLOWED_GROUPS" := " engineering , sre,, " ]> ∅))
    = ["engineering"; "sre"].
Proof. vm_compute. reflexivity. Qed.

Example stripDomainSuffix_example :
  K8sctl.stripDomainSuffix "cluster1-cp-1.example.com" = "cluster1-cp-1" /\
  K8sctl.stripDomainSuffix "cluster1-cp-1" = "cluster1-cp-1" /\
  K8sctl.stripDomainSuffix "" = "".
Proof. repeat split; reflexivity. Qed.

Example authCheckCmd_Run_example :
  authCheckCmd_Run (C := provider no_file 200 "{}") (S := sender 200 "ok")
    flags options ∅ None
    = Exit0 ["✓ Authentication successful: ok" +:+ LF] /\
  authCheckCmd_Run (C := provider no_file 200 "{}") (S := sender 401 "no")
    flags options ∅ None
    = Exit1 [] "✗ Authentication failed with status 401: no".
Proof. split; vm_compute; reflexivity. Qed.

Lemma verifyExpiration_fraction_witness :
  verifyExpiration (L := up) validator
    (<[ "exp" := VFloat64 (Qmake 20001 2) ]> claims_good) 10000 = None.
Proof.
  destruct (verifyExpiration_fraction (L := up) validator
              (<[ "exp" := VFloat64 (Qmake 20001 2) ]> claims_good)
              10000 (Qmake 20001 2)) as [Hin _].
  - vm_compute; reflexivity.
  - vm_compute. discriminate.
  - apply Hin; vm_compute; [reflexivity | discriminate].
Defined.

(** An expiration of ten to the nineteenth seconds is beyond the int64
    range: where the conversion gives the least int64, the token counts
    as expired. *)
Example verifyExpiration_overflow :
  verifyExpiration (L := up) validator
    (<[ "exp" := VFloat64 (Qmake 10000000000000000000 1) ]> claims_good) 1793460931
    = Some (errors_New "token expired").
Proof. vm_compute. reflexivity. Qed.

Lemma getClusterSuffix_unreadable_config_witness :
  getClusterSuffix (C := provider no_file 200 "{}")
    (<[ "K8SCTL_CONFIG" := "/tmp/missing.yaml" ]> ∅) None "prod-us" = "prod-us".
Proof.
  refine (getClusterSuffix_unreadable_config (F := no_file)
            (C := provider no_file 200 "{}")
            (<[ "K8SCTL_CONFIG" := "/tmp/missing.yaml" ]> ∅) "prod-us" ""
            (errors_New "open /tmp/missing.yaml: no such file or directory")
            _ _ _ _).
  - intros env. reflexivity.
  - vm_compute. discriminate.
  - vm_compute. reflexivity.
  - vm_compute. reflexivity.
Defined.
